(** * falcon-bot: the Newtonian state estimator of [model.py]

    A shallow embedding of [NewtonStateEngine] ([tick] and [predict]) and the
    properties its specification states about it.

    Numbers.  The Python code computes on floats.  The embedding is written
    once, over an interface [Number] of the arithmetic the code uses, and is
    read at two instances:
    - [Q], exact rational arithmetic, in which a division by zero is
      undefined ([None]).  Arithmetic identities and bounds are stated here:
      rounding is abstracted, as the specification does when it says
      "within floating tolerance".
    - [float], IEEE 754 binary64 (the kernel's primitive floats), which is
      what Python and numpy compute with.  It is used where a property is
      about infinities and NaN themselves, and where the sentinel variances
      make the weights and spreads closed binary64 computations.

    Positions are scalar floats.  Integer positions, which numpy would hold
    in a wrapping int64 array, are outside the model.  The threat field is a
    Python dict: an association list in insertion order whose keys are
    pairwise distinct, since [np.argmin] breaks ties by that order. *)

From Stdlib Require Import List String Bool Arith ZArith QArith Qabs Lia Lqa.
From Stdlib Require Import PrimFloat Uint63.
Import ListNotations.


Local Open Scope nat_scope.

(** ** The arithmetic interface *)

Class Number (A : Type) : Type := {
  lit : Q -> A;                 (* a numeric literal of the source *)
  nadd : A -> A -> A;
  nsub : A -> A -> A;
  nmul : A -> A -> A;
  ndiv : A -> A -> option A;    (* [None]: the quotient is undefined *)
  nabs : A -> A;
  nltb : A -> A -> bool;
  nleb : A -> A -> bool;
  neqb : A -> A -> bool;
  nfinite : A -> bool           (* neither an infinity nor NaN *)
}.

Declare Scope num_scope.
Delimit Scope num_scope with num.
Notation "x + y" := (nadd x y) : num_scope.
Notation "x - y" := (nsub x y) : num_scope.
Notation "x * y" := (nmul x y) : num_scope.
Notation "x <? y" := (nltb x y) : num_scope.
Notation "x <=? y" := (nleb x y) : num_scope.
Notation "x =? y" := (neqb x y) : num_scope.

(** Exact arithmetic. *)
#[export] Instance Number_Q : Number Q := {
  lit q := q;
  nadd := Qplus;
  nsub := Qminus;
  nmul := Qmult;
  ndiv x y := if Qeq_bool y 0 then None else Some (x / y)%Q;
  nabs := Qabs;
  nltb x y := negb (Qle_bool y x);
  nleb := Qle_bool;
  neqb := Qeq_bool;
  nfinite _ := true
}.

(** Binary64.  A literal [n/d] of the source has [n] and [d] exactly
    representable, so the correctly rounded quotient is the float that Python
    reads the literal as.  Dividing by zero yields an infinity or NaN, as
    numpy does. *)
Definition float_of_Z (z : Z) : float :=
  match z with
  | Z0 => PrimFloat.zero
  | Zpos p => PrimFloat.of_uint63 (Uint63.of_pos p)
  | Zneg p => PrimFloat.opp (PrimFloat.of_uint63 (Uint63.of_pos p))
  end.

#[export] Instance Number_float : Number float := {
  lit q := PrimFloat.div (float_of_Z (Qnum q)) (float_of_Z (Zpos (Qden q)));
  nadd := PrimFloat.add;
  nsub := PrimFloat.sub;
  nmul := PrimFloat.mul;
  ndiv x y := Some (PrimFloat.div x y);
  nabs := PrimFloat.abs;
  nltb := PrimFloat.ltb;
  nleb := PrimFloat.leb;
  neqb := PrimFloat.eqb;
  nfinite := PrimFloat.is_finite
}.

(** Results that may be undefined: the option monad. *)
Definition obind {X Y : Type} (m : option X) (k : X -> option Y) : option Y :=
  match m with
  | Some x => k x
  | None => None
  end.

Notation "x <- m ;; k" := (obind m (fun x => k))
  (at level 61, m at next level, right associativity).

Fixpoint omap {X Y : Type} (f : X -> option Y) (l : list X) : option (list Y) :=
  match l with
  | [] => Some []
  | x :: r => y <- f x ;; ys <- omap f r ;; Some (y :: ys)
  end.

(** ** The numpy functions the estimator calls (one-dimensional arrays) *)

Section Numpy.
Context {A : Type} `{Number A}.
Local Open Scope num_scope.

Definition is_nan (x : A) : bool := negb (x =? x).

(** [np.sum]: the reduction starts from the first element and adds from left
    to right.  From eight elements on numpy adds pairwise, which in binary64
    can differ from this order by a rounding; no binary64 statement below
    sums more than one element. *)
Definition np_sum (a : list A) : A :=
  match a with
  | [] => lit 0
  | x :: r => fold_left nadd r x
  end.

Definition of_len (n : nat) : A := lit (inject_Z (Z.of_nat n)).

Definition np_mean (a : list A) : option A :=
  ndiv (np_sum a) (of_len (List.length a)).

(** [np.var] (population variance, [ddof = 0]): the mean of the squared
    deviations from the mean. *)
Definition np_var (a : list A) : option A :=
  m <- np_mean a ;;
  let x := map (fun v => v - m) a in
  ndiv (np_sum (map (fun v => v * v) x)) (of_len (List.length a)).

(** [np.gradient] with unit spacing: central differences in the interior,
    one-sided first differences at both ends; fewer than two samples raise. *)
Definition np_gradient (f : list A) : option (list A) :=
  let n := List.length f in
  let at_ i := nth i f (lit 0) in
  if (n <? 2)%nat then None
  else omap (fun i =>
               if (i =? 0)%nat then Some (at_ 1%nat - at_ 0%nat)
               else if (i =? n - 1)%nat then Some (at_ (n - 1)%nat - at_ (n - 2)%nat)
               else ndiv (at_ (i + 1)%nat - at_ (i - 1)%nat) (lit 2))
            (seq 0 n).

(** Python's [a[-1]]. *)
Definition last_elt (a : list A) : A := last a (lit 0).

(** [np.argmin]: the index of the first minimum; a NaN counts as minimal;
    an empty array raises. *)
Fixpoint argmin_from (mp : A) (mi i : nat) (a : list A) : nat :=
  match a with
  | [] => mi
  | x :: r =>
      if negb (mp <=? x)
      then if is_nan x then i else argmin_from x i (S i) r
      else argmin_from mp mi (S i) r
  end.

Definition np_argmin (a : list A) : option nat :=
  match a with
  | [] => None
  | x :: r => Some (if is_nan x then 0%nat else argmin_from x 0 1 r)
  end.

(** [np.sign]: 1, -1 or 0, and NaN for NaN. *)
Definition np_sign (x : A) : A :=
  if lit 0 <? x then lit 1
  else if x <? lit 0 then lit (-1)
  else if x =? lit 0 then lit 0
  else x.

(** [np.clip x lo hi = minimum (maximum x lo) hi], NaN propagating. *)
Definition np_maximum (x y : A) : A :=
  if (y <=? x) || is_nan x then x else y.
Definition np_minimum (x y : A) : A :=
  if (x <=? y) || is_nan x then x else y.
Definition np_clip (x lo hi : A) : A := np_minimum (np_maximum x lo) hi.

End Numpy.


(** ** Python values: the records [predict] returns *)

#[local] Unset Elimination Schemes.
Inductive pyval (A : Type) : Type :=
| PNum (x : A)
| PStr (s : string)
| PList (l : list (pyval A))
| PDict (kvs : list (string * pyval A)).

#[local] Set Elimination Schemes.

Arguments PNum {A} x.
Arguments PStr {A} s.
Arguments PList {A} l.
Arguments PDict {A} kvs.

(** [d.get(k)] on a dict literal. *)
Fixpoint py_get {V : Type} (k : string) (kvs : list (string * V)) : option V :=
  match kvs with
  | [] => None
  | (k', v) :: r => if String.eqb k' k then Some v else py_get k r
  end.

Definition field {A : Type} (k : string) (v : pyval A) : option (pyval A) :=
  match v with
  | PDict kvs => py_get k kvs
  | _ => None
  end.


(** Keys of the threat field: any type with a decidable equality. *)
Class Key (K : Type) : Type := {
  key_eqb : K -> K -> bool;
  key_eqb_spec : forall x y : K, reflect (x = y) (key_eqb x y)
}.

#[export] Instance Key_string : Key string := {
  key_eqb := String.eqb;
  key_eqb_spec := String.eqb_spec
}.

(** ** Methods

    A method runs on the instance [self : S]: it gives a result, or [None]
    when the call raises or is undefined, and the instance after the call. *)

Definition M (S X : Type) : Type := S -> option X * S.

Definition ret {S X : Type} (x : X) : M S X := fun self => (Some x, self).

Definition bind {S X Y : Type} (m : M S X) (k : X -> M S Y) : M S Y :=
  fun self =>
    match m self with
    | (Some x, self') => k x self'
    | (None, self') => (None, self')
    end.

Definition gets {S X : Type} (f : S -> X) : M S X := fun self => (Some (f self), self).

Definition modify {S : Type} (f : S -> S) : M S unit := fun self => (Some tt, f self).

Definition lift {S X : Type} (o : option X) : M S X := fun self => (o, self).

Definition when {S : Type} (b : bool) (m : M S unit) : M S unit :=
  if b then m else ret tt.

Notation "'do' x <- m ; k" := (bind m (fun x => k))
  (at level 10, x name, m at level 100, k at level 200).
Notation "'run' m ; k" := (bind m (fun _ => k))
  (at level 10, m at level 100, k at level 200).

(** ** The estimator *)

Section Engine.
Context {A : Type} `{Number A} {K : Type} `{Key K}.
Local Open Scope num_scope.

(** Module constants. *)
Definition EVASION_FACTOR : A := lit 2.4.
Definition DISSIPATION_THRESHOLD : A := lit 0.6.

(** The instance fields of [NewtonStateEngine]. *)
Record State : Type := {
  state_buffer : list A;
  buffer_size : nat;
  last_pos : A;
  field_vectors : list (K * A)
}.

(** The keys of [payload] that [tick] reads; [None] is an absent key or a
    Python [None]. *)
Record Payload : Type := {
  dove_location : option A;
  falcon_location : option A;
  falcon_id : option K
}.

Definition Metrics : Type := list (string * pyval A).

(** [__init__]. *)
Definition init : State :=
  {| state_buffer := []; buffer_size := 25; last_pos := lit 0; field_vectors := [] |}.

(** [d[k] = v] on an insertion-ordered dict: an existing key keeps its place. *)
Fixpoint dict_set (k : K) (v : A) (d : list (K * A)) : list (K * A) :=
  match d with
  | [] => [(k, v)]
  | (k', v') :: r => if key_eqb k' k then (k', v) :: r else (k', v') :: dict_set k v r
  end.

(** Field updates. *)
Definition set_last_pos (x : A) (self : State) : State :=
  {| state_buffer := state_buffer self; buffer_size := buffer_size self;
     last_pos := x; field_vectors := field_vectors self |}.

Definition set_state_buffer (b : list A) (self : State) : State :=
  {| state_buffer := b; buffer_size := buffer_size self;
     last_pos := last_pos self; field_vectors := field_vectors self |}.

Definition set_field_vectors (d : list (K * A)) (self : State) : State :=
  {| state_buffer := state_buffer self; buffer_size := buffer_size self;
     last_pos := last_pos self; field_vectors := d |}.

(** [tick]: the state update. *)
Definition tick (payload : Payload) (performance_metrics : Metrics) : M State unit :=
  let curr_loc := dove_location payload in
  let threat_loc := falcon_location payload in
  let threat_id := falcon_id payload in
  run match curr_loc with
      | Some c =>
          run modify (set_last_pos c);
          run modify (fun self => set_state_buffer (state_buffer self ++ [c]) self);
          do len <- gets (fun self => List.length (state_buffer self));
          do size <- gets buffer_size;
          when (size <? len)%nat
            (modify (fun self => set_state_buffer (tl (state_buffer self)) self))
      | None => ret tt
      end;
  match threat_loc, threat_id with
  | Some tloc, Some tid =>
      modify (fun self => set_field_vectors (dict_set tid tloc (field_vectors self)) self)
  | _, _ => ret tt
  end.

(** What one append does to the bounded buffer (lines 35 to 37). *)
Definition push (cap : nat) (b : list A) (c : A) : list A :=
  let b' := b ++ [c] in
  if (cap <? List.length b')%nat then tl b' else b'.

(** The local variables of the warm branch of [predict]; [clamped] records
    whether the "normalization safety" branch ran. *)
Record Locals : Type := {
  velocity : A;
  acceleration : A;
  inertial_mean : A;
  field_variance : A;
  closest_threat_loc : option A;
  repulsion_dir : A;
  loc_a : A; scale_a : A;
  loc_b : A; scale_b : A;
  loc_c : A; scale_c : A;
  cohesion_index : A;
  clamped : bool;
  w_a : A; w_b : A; w_c : A
}.

(** The threat statistics: field variance, closest threat, repulsion. *)
Definition field_analysis (lastp : A) (threats : list A) : option (A * option A * A) :=
  if (0 <? List.length threats)%nat then
    fv <- (if (1 <? List.length threats)%nat then np_var threats else Some (lit 1.0)) ;;
    let dist_matrix := map (fun t => nabs (t - lastp)) threats in
    closest_threat_idx <- np_argmin dist_matrix ;;
    let closest := nth closest_threat_idx threats (lit 0) in
    Some (fv, Some closest, np_sign (lastp - closest))
  else Some (lit 10.0, None, lit 0).

(** Weight assignment from the clipped cohesion index, with the
    normalization branch. *)
Definition assign_weights (cohesion : A) : bool * (A * A * A) :=
  let wb := cohesion * lit 0.8 in
  let wc := lit 0.05 in
  let wa := lit 1.0 - wb - wc in
  if wa <? lit 0 then (true, (lit 0, lit 1.0 - wc, wc))
  else (false, (wa, wb, wc)).

(** Lines 57 to 121 of [predict]. *)
Definition internals (self : State) : option Locals :=
  let path_array := state_buffer self in
  g <- np_gradient path_array ;;
  let v := last_elt g in
  gg <- np_gradient g ;;
  let acc := last_elt gg in
  let imean := last_pos self + v + (lit 0.5 * acc) in
  let threats := map snd (field_vectors self) in
  fa <- field_analysis (last_pos self) threats ;;
  let '(fv, closest, rdir) := fa in
  let la := imean in
  let sa := lit 0.2 + (lit 0.1 * fv) in
  let '(lb, sb) :=
    match closest with
    | Some _ => (last_pos self + (EVASION_FACTOR * rdir), lit 0.15)
    | None => (la, sa)
    end in
  let lc := last_pos self in
  let sc := lit 4.0 in
  c <- ndiv (lit 1.0) (fv + lit 0.1) ;;
  let cohesion := np_clip c (lit 0.0) (lit 1.0) in
  let '(cl, (wa, wb, wc)) := assign_weights cohesion in
  Some {| velocity := v; acceleration := acc; inertial_mean := imean;
          field_variance := fv; closest_threat_loc := closest; repulsion_dir := rdir;
          loc_a := la; scale_a := sa; loc_b := lb; scale_b := sb;
          loc_c := lc; scale_c := sc;
          cohesion_index := cohesion; clamped := cl;
          w_a := wa; w_b := wb; w_c := wc |}.

(** The records [predict] builds. *)
Definition norm_density (loc scale : A) : pyval A :=
  PDict [("type", PStr "scipy"); ("name", PStr "norm");
         ("params", PDict [("loc", PNum loc); ("scale", PNum scale)])]%string.

Definition component (loc scale weight : A) : pyval A :=
  PDict [("density", norm_density loc scale); ("weight", PNum weight)]%string.

Definition warmup_record (lastp : A) : pyval A :=
  PDict [("density", norm_density lastp (lit 2.0)); ("weight", PNum (lit 1.0))]%string.

Definition mixture_record (l : Locals) : pyval A :=
  PDict [("density",
          PDict [("type", PStr "mixture");
                 ("components",
                  PList [component (loc_a l) (scale_a l) (w_a l);
                         component (loc_b l) (scale_b l) (w_b l);
                         component (loc_c l) (scale_c l) (w_c l)])]);
         ("weight", PNum (lit 1.0))]%string.

(** [predict]. *)
Definition predict : M State (pyval A) :=
  do buf <- gets state_buffer;
  if (List.length buf <? 5)%nat then
    do lastp <- gets last_pos;
    ret (warmup_record lastp)
  else
    do self <- gets (fun self => self);
    do l <- lift (internals self);
    ret (mixture_record l).

(** Running the methods. *)
Definition after_tick (payload : Payload) (metrics : Metrics) (self : State) : State :=
  snd (tick payload metrics self).

Definition ingest (obs : list (Payload * Metrics)) (self : State) : State :=
  fold_left (fun s pm => after_tick (fst pm) (snd pm) s) obs self.

Definition prediction (self : State) : option (pyval A) := fst (predict self).

End Engine.

Arguments State A K : clear implicits.
Arguments Payload A K : clear implicits.
Arguments Metrics A : clear implicits.
Arguments Locals A : clear implicits.

(** Reading a returned record. *)
Definition at_path {A : Type} (ks : list string) (v : pyval A) : option (pyval A) :=
  fold_left (fun o k => obind o (field k)) ks (Some v).

(** The signal positions a list of observations carries, in order. *)
Definition signals {A K : Type} (obs : list (Payload A K * Metrics A)) : list A :=
  flat_map (fun pm => match dove_location (fst pm) with
                      | Some c => [c]
                      | None => []
                      end) obs.

(** The last [n] elements of a list. *)
Definition lastn {X : Type} (n : nat) (l : list X) : list X :=
  skipn (List.length l - n) l.

(** A dict holds each key once. *)
Definition dict_ok {K V : Type} (d : list (K * V)) : Prop := NoDup (map fst d).

(** The entries of a dict under a key. *)
Definition entries {K V : Type} `{Key K} (k : K) (d : list (K * V)) : list (K * V) :=
  filter (fun kv => key_eqb (fst kv) k) d.

(** ** Shapes of the returned record *)

Definition is_num {A : Type} (v : option (pyval A)) : bool :=
  match v with
  | Some (PNum _) => true
  | _ => false
  end.

Definition is_str {A : Type} (s : string) (v : option (pyval A)) : bool :=
  match v with
  | Some (PStr s') => String.eqb s s'
  | _ => false
  end.

Definition sub_record {A : Type} (k : string) (shape : pyval A -> bool) (v : pyval A) : bool :=
  match field k v with
  | Some d => shape d
  | None => false
  end.

Definition list_of {A : Type} (k : string) (shape : pyval A -> bool) (v : pyval A) : bool :=
  match field k v with
  | Some (PList l) => forallb shape l
  | _ => false
  end.

(** The two shapes the interface section of the specification words:
    [{kind: "single", family: "normal", location, scale, weight}] and
    [{kind: "mixture", components: [{density, weight}, ...], weight}]. *)
Definition interface_single {A : Type} (v : pyval A) : bool :=
  is_str "single" (field "kind" v) && is_str "normal" (field "family" v)
  && is_num (field "location" v) && is_num (field "scale" v)
  && is_num (field "weight" v).

Definition interface_mixture {A : Type} (v : pyval A) : bool :=
  is_str "mixture" (field "kind" v)
  && list_of "components"
       (fun c => sub_record "density" interface_single c && is_num (field "weight" c)) v
  && is_num (field "weight" v).

Definition interface_shape {A : Type} (v : pyval A) : bool :=
  interface_single v || interface_mixture v.

(** The two shapes the code builds:
    [{density: {type: "scipy", name: "norm", params: {loc, scale}}, weight}] and
    [{density: {type: "mixture", components: [c, c, c]}, weight}] with each
    [c] of the first shape. *)
Definition scipy_norm {A : Type} (v : pyval A) : bool :=
  is_str "scipy" (field "type" v) && is_str "norm" (field "name" v)
  && sub_record "params"
       (fun p => is_num (field "loc" p) && is_num (field "scale" p)) v.

Definition weighted_norm {A : Type} (v : pyval A) : bool :=
  sub_record "density" scipy_norm v && is_num (field "weight" v).

Definition weighted_mixture {A : Type} (v : pyval A) : bool :=
  sub_record "density"
    (fun d => is_str "mixture" (field "type" d)
              && list_of "components" weighted_norm d
              && match field "components" d with
                 | Some (PList l) => (List.length l =? 3)%nat
                 | _ => false
                 end) v
  && is_num (field "weight" v).

Definition record_shape {A : Type} (v : pyval A) : bool :=
  weighted_norm v || weighted_mixture v.

(** The number at a path inside the [i]-th component of a mixture record. *)
Definition component_at {A : Type} (i : nat) (d : pyval A) : option (pyval A) :=
  match at_path ["density"; "components"]%string d with
  | Some (PList l) => nth_error l i
  | _ => None
  end.

Definition component_num {A : Type} (i : nat) (ks : list string) (d : pyval A) : option A :=
  match obind (component_at i d) (at_path ks) with
  | Some (PNum x) => Some x
  | _ => None
  end.



Definition weight_of {A : Type} (i : nat) (d : pyval A) : option A :=
  component_num i ["weight"]%string d.

Definition scale_of {A : Type} (i : nat) (d : pyval A) : option A :=
  component_num i ["density"; "params"; "scale"]%string d.

Definition loc_of {A : Type} (i : nat) (d : pyval A) : option A :=
  component_num i ["density"; "params"; "loc"]%string d.


(** ** Observations used in the examples *)

Definition signal_obs {A : Type} (x : A) : Payload A string * Metrics A :=
  ({| dove_location := Some x; falcon_location := None; falcon_id := None |}, []).

Definition threat_obs {A : Type} (k : string) (x : A) : Payload A string * Metrics A :=
  ({| dove_location := None; falcon_location := Some x; falcon_id := Some k |}, []).



(** The five positions 0, 1, 2, 3, 4 of the end-to-end example. *)
Definition linear_run : list (Payload Q string * Metrics Q) :=
  map signal_obs [0; 1; 2; 3; 4]%Q.

(** Twenty-six positions 0, 1, ..., 25: one more than the capacity. *)
Definition long_run : list (Payload Q string * Metrics Q) :=
  map (fun i => signal_obs (inject_Z (Z.of_nat i))) (seq 0 26).

(** Five finite binary64 positions whose differences overflow:
    0, 0, 2^1023, 2^1023, -2^1023. *)
Definition overflow_run : list (Payload float string * Metrics float) :=
  map signal_obs [0; 0; 0x1p1023; 0x1p1023; -0x1p1023]%float.

(** Two threats at the same position after the linear run: zero field
    variance, so the cohesion index is clipped to 1. *)
Definition swarm_run : list (Payload Q string * Metrics Q) :=
  linear_run ++ [threat_obs "a" 3%Q; threat_obs "b" 3%Q].

(** A cold estimator that has seen one signal position and one threat. *)
Definition cold_run : list (Payload Q string * Metrics Q) :=
  [signal_obs 3%Q; threat_obs "t1" 7%Q].

(** The same runs on binary64 positions. *)
Definition linear_run64 : list (Payload float string * Metrics float) :=
  map signal_obs [0; 1; 2; 3; 4]%float.

Definition one_threat_run64 : list (Payload float string * Metrics float) :=
  linear_run64 ++ [threat_obs "t1" 4%float].


(** Unfolds the arithmetic of the exact instance. *)
Ltac exact_arith :=
  cbn [lit nadd nsub nmul ndiv nabs nltb nleb neqb nfinite Number_Q] in *.

(** The value of [np.gradient f] at index [i], in exact arithmetic. *)
Definition gradient_at (f : list Q) (i : nat) : Q :=
  let n := List.length f in
  if (i =? 0)%nat then (nth 1 f 0 - nth 0 f 0)%Q
  else if (i =? n - 1)%nat then (nth (n - 1) f 0 - nth (n - 2) f 0)%Q
  else ((nth (i + 1) f 0 - nth (i - 1) f 0) / 2)%Q.

(** The threat positions [predict] reads, in insertion order. *)
Definition threats_of {A K : Type} (self : State A K) : list A :=
  map snd (field_vectors self).

(** The linear run followed by one threat at the last position. *)
Definition one_threat_run : list (Payload Q string * Metrics Q) :=
  linear_run ++ [threat_obs "t1" 4%Q].

(** The linear run followed by two threats at distance 1 on either side of
    the last position, the one ahead inserted first. *)
Definition flank_run : list (Payload Q string * Metrics Q) :=
  linear_run ++ [threat_obs "a" 5%Q; threat_obs "b" 3%Q].

(** * Properties *)

(** ** Ingestion *)

Section TickFacts.
Context {A : Type} `{Number A} {K : Type} `{Key K}.

Lemma after_tick_eq (p : Payload A K) (m : Metrics A) (self : State A K) :
  after_tick p m self =
  let s1 := match dove_location p with
            | Some c =>
                {| state_buffer := push (buffer_size self) (state_buffer self) c;
                   buffer_size := buffer_size self;
                   last_pos := c;
                   field_vectors := field_vectors self |}
            | None => self
            end in
  match falcon_location p, falcon_id p with
  | Some tloc, Some tid => set_field_vectors (dict_set tid tloc (field_vectors s1)) s1
  | _, _ => s1
  end.
Proof.
  destruct self as [b cap lp fv].
  unfold after_tick, tick, push, bind, modify, gets, when, ret,
    set_last_pos, set_state_buffer, set_field_vectors.
  destruct p as [[c|] [tloc|] [tid|]]; cbn -[Nat.ltb tl app List.length];
    try destruct (cap <? List.length (b ++ [c])); reflexivity.
Qed.

Lemma after_tick_buffer_size (p : Payload A K) (m : Metrics A) (self : State A K) :
  buffer_size (after_tick p m self) = buffer_size self.
Proof.
  rewrite after_tick_eq.
  destruct p as [[c|] [tloc|] [tid|]]; reflexivity.
Qed.

Lemma after_tick_state_buffer (p : Payload A K) (m : Metrics A) (self : State A K) :
  state_buffer (after_tick p m self) =
  match dove_location p with
  | Some c => push (buffer_size self) (state_buffer self) c
  | None => state_buffer self
  end.
Proof.
  rewrite after_tick_eq.
  destruct p as [[c|] [tloc|] [tid|]]; reflexivity.
Qed.

Lemma after_tick_field_vectors (p : Payload A K) (m : Metrics A) (self : State A K) :
  field_vectors (after_tick p m self) =
  match falcon_location p, falcon_id p with
  | Some tloc, Some tid => dict_set tid tloc (field_vectors self)
  | _, _ => field_vectors self
  end.
Proof.
  rewrite after_tick_eq.
  destruct p as [[c|] [tloc|] [tid|]]; reflexivity.
Qed.

Lemma lastn_all {X : Type} (n : nat) (l : list X) :
  List.length l <= n -> lastn n l = l.
Proof.
  intros Hle. unfold lastn.
  replace (List.length l - n) with 0 by lia. reflexivity.
Qed.

Lemma lastn_length {X : Type} (n : nat) (l : list X) :
  List.length (lastn n l) = Nat.min n (List.length l).
Proof. unfold lastn. rewrite length_skipn. lia. Qed.

Lemma lastn_app {X : Type} (n : nat) (l r : list X) :
  n <= List.length r -> lastn n (l ++ r) = lastn n r.
Proof.
  intros Hle. unfold lastn.
  rewrite length_app, skipn_app.
  rewrite skipn_all2 by lia. cbn [app].
  f_equal. lia.
Qed.

(** A push keeps the last [cap] elements of the extended buffer. *)
Lemma push_lastn (cap : nat) (b : list A) (c : A) :
  List.length b <= cap -> push cap b c = lastn cap (b ++ [c]).
Proof.
  intros Hle. unfold push, lastn.
  rewrite length_app. cbn [List.length].
  destruct (Nat.ltb_spec cap (List.length b + 1)) as [Hlt | Hge].
  - replace (List.length b + 1 - cap) with 1 by lia.
    reflexivity.
  - replace (List.length b + 1 - cap) with 0 by lia.
    reflexivity.
Qed.

Lemma lastn_lastn_app {X : Type} (cap : nat) (l r : list X) :
  lastn cap (lastn cap l ++ r) = lastn cap (l ++ r).
Proof.
  unfold lastn.
  assert (Hk : skipn (List.length l - cap) l ++ r
               = skipn (List.length l - cap) (l ++ r)).
  { rewrite skipn_app.
    replace (List.length l - cap - List.length l) with 0 by lia.
    reflexivity. }
  rewrite Hk, skipn_skipn, length_skipn, length_app.
  f_equal. lia.
Qed.

(** The buffer after a run of observations. *)
Lemma ingest_state_buffer (obs : list (Payload A K * Metrics A)) (self : State A K) :
  List.length (state_buffer self) <= buffer_size self ->
  state_buffer (ingest obs self) =
    lastn (buffer_size self) (state_buffer self ++ signals obs)
  /\ buffer_size (ingest obs self) = buffer_size self.
Proof.
  revert self. induction obs as [| [p m] obs IH]; intros self Hle.
  - cbn. rewrite app_nil_r, lastn_all by exact Hle. auto.
  - cbn [ingest fold_left fst snd].
    change (fold_left _ obs ?s) with (ingest obs s).
    pose proof (after_tick_buffer_size p m self) as Hsz.
    pose proof (after_tick_state_buffer p m self) as Hbuf.
    destruct (IH (after_tick p m self)) as [IHb IHs].
    { rewrite Hsz, Hbuf. destruct (dove_location p) as [c|]; [|exact Hle].
      rewrite push_lastn, lastn_length by exact Hle. lia. }
    rewrite IHb, IHs, Hsz, Hbuf. split; [|reflexivity].
    unfold signals at 2. cbn [flat_map fst].
    destruct (dove_location p) as [c|]; [|reflexivity].
    rewrite push_lastn by exact Hle.
    fold (signals obs).
    rewrite lastn_lastn_app, <- app_assoc. reflexivity.
Qed.

Lemma signals_length (obs : list (Payload A K * Metrics A)) :
  Forall (fun pm => dove_location (fst pm) <> None) obs ->
  List.length (signals obs) = List.length obs.
Proof.
  induction 1 as [| [p m] obs Hp _ IH]; [reflexivity|].
  unfold signals in *. cbn [flat_map fst List.length] in *.
  destruct (dove_location p); [|congruence].
  cbn [app List.length]. now rewrite IH.
Qed.

(** C6 (bounded history).  From a state whose buffer is within capacity,
    after ingesting more observations than the capacity, each carrying a
    signal position, the buffer has exactly [buffer_size] samples: the last
    [buffer_size] ingested positions, in ingestion order. *)
Theorem bounded_history (obs : list (Payload A K * Metrics A)) (self : State A K) :
  List.length (state_buffer self) <= buffer_size self ->
  Forall (fun pm => dove_location (fst pm) <> None) obs ->
  buffer_size self < List.length obs ->
  List.length (state_buffer (ingest obs self)) = buffer_size self
  /\ state_buffer (ingest obs self) = lastn (buffer_size self) (signals obs)
  /\ List.length (signals obs) = List.length obs
  /\ buffer_size (ingest obs self) = buffer_size self.
Proof.
  intros Hle Hsig Hlt.
  pose proof (signals_length obs Hsig) as Hlen.
  destruct (ingest_state_buffer obs self Hle) as [Hbuf Hsz].
  rewrite Hbuf, lastn_app by lia.
  rewrite lastn_length. repeat split; try assumption. lia.
Qed.

(** Assignment to a dict key. *)
Lemma dict_set_other (k : K) (v : A) (d : list (K * A)) (k0 : K) :
  k0 <> k -> entries k0 (dict_set k v d) = entries k0 d.
Proof.
  intros Hne. unfold entries.
  induction d as [| [k' v'] d IH]; cbn.
  - destruct (key_eqb_spec k k0); [congruence | reflexivity].
  - destruct (key_eqb_spec k' k) as [-> | Hk]; cbn.
    + destruct (key_eqb_spec k k0); [congruence | reflexivity].
    + now rewrite IH.
Qed.

Lemma dict_set_absent (k : K) (v : A) (d : list (K * A)) :
  ~ In k (map fst d) -> dict_set k v d = d ++ [(k, v)].
Proof.
  induction d as [| [k' v'] d IH]; cbn; intros Hnin; [reflexivity|].
  destruct (key_eqb_spec k' k) as [-> | Hk]; [tauto|].
  rewrite IH by tauto. reflexivity.
Qed.

Lemma entries_absent {V : Type} (k : K) (d : list (K * V)) :
  ~ In k (map fst d) -> entries k d = [].
Proof.
  unfold entries.
  induction d as [| [k' v'] d IH]; cbn; intros Hnin; [reflexivity|].
  destruct (key_eqb_spec k' k) as [-> | Hk]; [tauto|].
  apply IH. tauto.
Qed.

Lemma entries_app {V : Type} (k : K) (d e : list (K * V)) :
  entries k (d ++ e) = entries k d ++ entries k e.
Proof. unfold entries. apply filter_app. Qed.

Lemma dict_set_keys_present (k : K) (v : A) (d : list (K * A)) :
  In k (map fst d) -> map fst (dict_set k v d) = map fst d.
Proof.
  induction d as [| [k' v'] d IH]; cbn; intros Hin; [tauto|].
  destruct (key_eqb_spec k' k) as [-> | Hk]; cbn; [reflexivity|].
  rewrite IH; [reflexivity|]. destruct Hin; [congruence | assumption].
Qed.

Lemma dict_set_ok (k : K) (v : A) (d : list (K * A)) :
  dict_ok d -> dict_ok (dict_set k v d).
Proof.
  unfold dict_ok. intros Hok.
  destruct (in_dec (fun x y => reflect_dec _ _ (key_eqb_spec x y)) k (map fst d))
    as [Hin | Hnin].
  - now rewrite dict_set_keys_present.
  - rewrite dict_set_absent, map_app by exact Hnin. cbn.
    apply NoDup_app; [exact Hok | repeat constructor; intros [] | ].
    intros x Hx [<- | []]. contradiction.
Qed.

(** After [d[k] = v] a well-formed dict holds one entry for [k]: [v]. *)
Lemma dict_set_entries (k : K) (v : A) (d : list (K * A)) :
  dict_ok d -> entries k (dict_set k v d) = [(k, v)].
Proof.
  unfold dict_ok, entries.
  induction d as [| [k' v'] d IH]; cbn [dict_set map fst]; intros Hok.
  - cbn. destruct (key_eqb_spec k k); [reflexivity | congruence].
  - inversion Hok as [| ? ? Hnin Hok']; subst.
    destruct (key_eqb_spec k' k) as [-> | Hk]; cbn [filter fst].
    + destruct (key_eqb_spec k k); [|congruence].
      f_equal. apply (entries_absent k d Hnin).
    + destruct (key_eqb_spec k' k); [congruence|].
      apply IH, Hok'.
Qed.

(** C7 (threat overwrite).  From a state whose threat field is a well-formed
    dict, after two ticks that both carry the identifier [k], with threat
    positions [p1] then [p2], the threat field holds exactly one entry for
    [k], and its value is [p2]. *)
Theorem threat_overwrite (self : State A K) (k : K) (p1 p2 : A)
    (o1 o2 : Payload A K) (m1 m2 : Metrics A) :
  dict_ok (field_vectors self) ->
  falcon_id o1 = Some k -> falcon_location o1 = Some p1 ->
  falcon_id o2 = Some k -> falcon_location o2 = Some p2 ->
  let self' := after_tick o2 m2 (after_tick o1 m1 self) in
  entries k (field_vectors self') = [(k, p2)]
  /\ dict_ok (field_vectors self').
Proof.
  intros Hok Hk1 Hp1 Hk2 Hp2 self'. subst self'.
  rewrite !after_tick_field_vectors, Hk1, Hp1, Hk2, Hp2.
  split.
  - apply dict_set_entries, dict_set_ok, Hok.
  - apply dict_set_ok, dict_set_ok, Hok.
Qed.

(** Both side conditions above hold in every state the methods can reach
    from a fresh estimator. *)
Lemma ingest_dict_ok (obs : list (Payload A K * Metrics A)) (self : State A K) :
  dict_ok (field_vectors self) -> dict_ok (field_vectors (ingest obs self)).
Proof.
  revert self. induction obs as [| [p m] obs IH]; intros self Hok; [exact Hok|].
  cbn [ingest fold_left fst snd].
  change (fold_left _ obs ?s) with (ingest obs s).
  apply IH. rewrite after_tick_field_vectors.
  destruct (falcon_location p), (falcon_id p); try exact Hok.
  apply dict_set_ok, Hok.
Qed.

Lemma reachable_well_formed (obs : list (Payload A K * Metrics A)) :
  List.length (state_buffer (ingest obs init)) <= buffer_size (ingest obs init)
  /\ dict_ok (field_vectors (ingest obs init)).
Proof.
  split.
  - destruct (ingest_state_buffer obs init) as [Hbuf Hsz]; [cbn; lia|].
    rewrite Hbuf, Hsz, lastn_length. lia.
  - apply ingest_dict_ok. constructor.
Qed.

End TickFacts.

(** ** Prediction, for any arithmetic *)

Section PredictFacts.
Context {A : Type} `{Number A} {K : Type} `{Key K}.
Local Open Scope string_scope.

Lemma prediction_warmup (self : State A K) :
  List.length (state_buffer self) < 5 ->
  prediction self = Some (warmup_record (last_pos self)).
Proof.
  intros Hlt. unfold prediction, predict, bind, gets, ret.
  cbn -[Nat.ltb]. apply Nat.ltb_lt in Hlt. rewrite Hlt. reflexivity.
Qed.

Lemma prediction_warm (self : State A K) :
  5 <= List.length (state_buffer self) ->
  prediction self = option_map mixture_record (internals self).
Proof.
  intros Hge. unfold prediction, predict, bind, gets, ret, lift.
  cbn -[Nat.ltb internals]. apply Nat.ltb_ge in Hge. rewrite Hge.
  cbn -[internals]. destruct (internals self); reflexivity.
Qed.

(** C1 (warmup).  With fewer than five samples in the history, whatever the
    threat field holds, [predict] returns a single normal density, not a
    mixture, located at [last_pos] with scale 2.0 and weight 1.0; before any
    ingestion [last_pos] is the zero default. *)
Theorem warmup_single_density (self : State A K) :
  List.length (state_buffer self) < 5 ->
  exists d,
    prediction self = Some d
    /\ at_path ["density"; "type"] d = Some (PStr "scipy")
    /\ at_path ["density"; "name"] d = Some (PStr "norm")
    /\ at_path ["density"; "components"] d = None
    /\ at_path ["density"; "params"; "loc"] d = Some (PNum (last_pos self))
    /\ at_path ["density"; "params"; "scale"] d = Some (PNum (lit 2.0))
    /\ at_path ["weight"] d = Some (PNum (lit 1.0))
    /\ last_pos (init : State A K) = lit 0.
Proof.
  intros Hlt. exists (warmup_record (last_pos self)).
  split; [apply prediction_warmup, Hlt|].
  repeat split.
Qed.

(** C9 (frame).  A call of [predict] leaves the instance as it was: history,
    last position, threat field and capacity. *)
Theorem predict_frame (self : State A K) :
  snd (predict self) = self.
Proof.
  unfold predict, bind, gets, ret, lift. cbn -[Nat.ltb internals].
  destruct (List.length (state_buffer self) <? 5)%nat; cbn -[internals]; [reflexivity|].
  destruct (internals self); reflexivity.
Qed.

End PredictFacts.

(** What a result of [internals] satisfies, read off its definition. *)
Section InternalsFacts.
Context {A : Type} `{Number A} {K : Type} `{Key K}.
Local Open Scope num_scope.

Lemma internals_inv (self : State A K) (l : Locals A) :
  internals self = Some l ->
  field_analysis (last_pos self) (map snd (field_vectors self))
    = Some (field_variance l, closest_threat_loc l, repulsion_dir l)
  /\ (exists c, ndiv (lit 1.0) (field_variance l + lit 0.1) = Some c
                /\ cohesion_index l = np_clip c (lit 0.0) (lit 1.0))
  /\ assign_weights (cohesion_index l) = (clamped l, (w_a l, w_b l, w_c l))
  /\ loc_a l = inertial_mean l
  /\ inertial_mean l = last_pos self + velocity l + (lit 0.5 * acceleration l)
  /\ scale_a l = lit 0.2 + (lit 0.1 * field_variance l)
  /\ (loc_b l, scale_b l) =
       match closest_threat_loc l with
       | Some _ => (last_pos self + (EVASION_FACTOR * repulsion_dir l), lit 0.15)
       | None => (loc_a l, scale_a l)
       end
  /\ loc_c l = last_pos self
  /\ scale_c l = lit 4.0.
Proof.
  unfold internals.
  destruct (np_gradient (state_buffer self)) as [g|]; [|discriminate].
  cbn [obind].
  destruct (np_gradient g) as [gg|]; [|discriminate].
  cbn [obind].
  destruct (field_analysis _ _) as [[[fv closest] rdir]|]; [|discriminate].
  cbn [obind].
  destruct closest as [t|]; cbv beta iota zeta;
    (destruct (ndiv (lit 1.0) (fv + lit 0.1)) as [c|] eqn:Hc; [|discriminate]);
    cbn [obind];
    destruct (assign_weights _) as [cl [[wa wb] wc]] eqn:Hw;
    intros [= <-]; cbn;
    repeat split; eauto.
Qed.

End InternalsFacts.

(** ** Exact arithmetic *)

Lemma omap_total {X Y : Type} (f : X -> option Y) (l : list X) :
  (forall x, In x l -> exists y, f x = Some y) ->
  exists ys, omap f l = Some ys /\ List.length ys = List.length l.
Proof.
  induction l as [| x l IH]; intros Hf.
  - exists []. split; reflexivity.
  - destruct (Hf x (or_introl eq_refl)) as [y Hy].
    destruct IH as [ys [Hys Hlen]].
    { intros x' Hx'. apply Hf. now right. }
    exists (y :: ys). cbn. rewrite Hy. cbn. rewrite Hys. cbn.
    split; [reflexivity | now rewrite Hlen].
Qed.

Section Exact.
Context {K : Type} `{Key K}.
Local Open Scope Q_scope.

Lemma ndiv_Q_defined (x y : Q) :
  ~ y == 0 -> ndiv x y = Some (x / y).
Proof.
  intros Hy. exact_arith.
  destruct (Qeq_bool y 0) eqn:E; [|reflexivity].
  apply Qeq_bool_iff in E. contradiction.
Qed.

Lemma of_len_pos (n : nat) : (0 < n)%nat -> 0 < of_len n.
Proof.
  intros Hn. unfold of_len. exact_arith.
  unfold Qlt. cbn. lia.
Qed.

Lemma is_nan_Q (x : Q) : is_nan x = false.
Proof.
  unfold is_nan. exact_arith. now rewrite Qeq_bool_refl.
Qed.

(** [np.gradient] is defined on two samples or more. *)
Lemma np_gradient_defined (f : list Q) :
  (2 <= List.length f)%nat ->
  exists g, np_gradient f = Some g /\ List.length g = List.length f.
Proof.
  intros Hlen. unfold np_gradient.
  apply Nat.ltb_ge in Hlen. rewrite Hlen.
  destruct (omap_total
              (fun i =>
                 if (i =? 0)%nat then Some (nth 1 f (lit 0) - nth 0 f (lit 0))%num
                 else if (i =? List.length f - 1)%nat
                      then Some (nth (List.length f - 1) f (lit 0)
                                 - nth (List.length f - 2) f (lit 0))%num
                      else ndiv (nth (i + 1) f (lit 0) - nth (i - 1) f (lit 0))%num (lit 2))
              (seq 0 (List.length f))) as [g [Hg Hl]].
  - intros i _.
    destruct (i =? 0)%nat; [eauto|].
    destruct (i =? List.length f - 1)%nat; [eauto|].
    rewrite ndiv_Q_defined; [eauto | discriminate].
  - exists g. split; [exact Hg|]. now rewrite Hl, length_seq.
Qed.

Lemma fold_left_nonneg (r : list Q) (x : Q) :
  0 <= x -> Forall (Qle 0) r -> 0 <= fold_left nadd r x.
Proof.
  revert x. induction r as [| y r IH]; intros x Hx Hr; [exact Hx|].
  inversion Hr as [| ? ? Hy Hr']; subst. cbn [fold_left].
  apply IH; [|exact Hr']. exact_arith. lra.
Qed.

Lemma np_sum_nonneg (a : list Q) :
  Forall (Qle 0) a -> 0 <= np_sum a.
Proof.
  destruct a as [| x r]; intros Ha.
  - cbn. lra.
  - inversion Ha; subst. now apply fold_left_nonneg.
Qed.

(** The variance of a non-empty array is defined and not negative. *)
Lemma np_var_defined (a : list Q) :
  (0 < List.length a)%nat ->
  exists v, np_var a = Some v /\ 0 <= v.
Proof.
  intros Hlen. pose proof (of_len_pos _ Hlen) as Hn.
  unfold np_var, np_mean.
  rewrite ndiv_Q_defined by lra. cbn [obind].
  rewrite ndiv_Q_defined by lra.
  eexists. split; [reflexivity|].
  apply Qle_shift_div_l; [exact Hn|]. rewrite Qmult_0_l.
  apply np_sum_nonneg.
  rewrite map_map. apply Forall_map, Forall_forall. intros x _.
  exact_arith. generalize (x - np_sum a / of_len (List.length a)). intros y. nra.
Qed.

(** The threat statistics are defined; the variance is not negative. *)
Lemma field_analysis_defined (lastp : Q) (threats : list Q) :
  exists fv closest rdir,
    field_analysis lastp threats = Some (fv, closest, rdir)
    /\ 0 <= fv
    /\ (threats = [] -> fv = 10.0 /\ closest = None /\ rdir = 0).
Proof.
  unfold field_analysis.
  destruct threats as [| t ts].
  - cbn [List.length Nat.ltb Nat.leb].
    do 3 eexists. split; [reflexivity|]. exact_arith.
    split; [lra | auto].
  - assert (Hfv : exists fv,
               (if (1 <? List.length (t :: ts))%nat
                then np_var (t :: ts) else Some (lit 1.0)) = Some fv /\ 0 <= fv).
    { destruct (1 <? List.length (t :: ts))%nat.
      - apply np_var_defined. cbn. lia.
      - eexists. split; [reflexivity|]. exact_arith. lra. }
    destruct Hfv as [fv [Hfv Hpos]].
    cbn [List.length Nat.ltb Nat.leb] in *. rewrite Hfv. cbn [obind map np_argmin].
    do 3 eexists. split; [reflexivity|]. split; [exact Hpos | discriminate].
Qed.

Lemma np_clip_unit (x : Q) :
  0 <= np_clip x (lit 0.0) (lit 1.0) <= 1.
Proof.
  unfold np_clip, np_minimum, np_maximum. rewrite !is_nan_Q, !orb_false_r.
  exact_arith.
  destruct (Qle_bool 0.0 x) eqn:E0.
  - apply Qle_bool_iff in E0.
    destruct (Qle_bool x 1.0) eqn:E1.
    + apply Qle_bool_iff in E1. lra.
    + lra.
  - destruct (Qle_bool 0.0 1.0) eqn:E1; lra.
Qed.


Lemma assign_weights_clamped (cohesion : Q) :
  1.0 - cohesion * 0.8 - 0.05 < 0 ->
  assign_weights cohesion = (true, (0, 1.0 - 0.05, 0.05)).
Proof.
  intros Hneg. unfold assign_weights. exact_arith.
  destruct (Qle_bool 0 (1.0 - cohesion * 0.8 - 0.05)) eqn:E; [|reflexivity].
  apply Qle_bool_iff in E. lra.
Qed.

(** A cohesion index of at most 1 takes the normal branch. *)
Lemma assign_weights_normal (cohesion : Q) :
  cohesion <= 1 ->
  assign_weights cohesion
    = (false, (1.0 - cohesion * 0.8 - 0.05, cohesion * 0.8, 0.05))
  /\ 0.15 <= 1.0 - cohesion * 0.8 - 0.05.
Proof.
  intros Hc. unfold assign_weights. exact_arith.
  assert (Hwa : 0.15 <= 1.0 - cohesion * 0.8 - 0.05) by lra.
  split; [|exact Hwa].
  destruct (Qle_bool 0 (1.0 - cohesion * 0.8 - 0.05)) eqn:E; [reflexivity|].
  assert (Hle : 0 <= 1.0 - cohesion * 0.8 - 0.05) by lra.
  apply Qle_bool_iff in Hle. congruence.
Qed.

(** The warm branch never divides by zero and never takes a statistic of an
    empty array. *)
Lemma internals_defined (self : State Q K) :
  (5 <= List.length (state_buffer self))%nat ->
  exists l, internals self = Some l.
Proof.
  intros Hlen. unfold internals.
  destruct (np_gradient_defined (state_buffer self)) as [g [Hg Hgl]]; [lia|].
  rewrite Hg. cbn [obind].
  destruct (np_gradient_defined g) as [gg [Hgg _]]; [lia|].
  rewrite Hgg. cbn [obind].
  destruct (field_analysis_defined (last_pos self) (map snd (field_vectors self)))
    as (fv & closest & rdir & Hfa & Hfv & _).
  rewrite Hfa. cbn [obind].
  rewrite (ndiv_Q_defined (lit 1.0) (nadd fv (lit 0.1))) by (exact_arith; lra).
  destruct closest; cbv beta iota zeta; cbn [obind];
    destruct (assign_weights _) as [cl [[wa wb] wc]]; eauto.
Qed.

(** The facts about a warm prediction that the properties below share. *)
Lemma warm_prediction (self : State Q K) :
  (5 <= List.length (state_buffer self))%nat ->
  exists l,
    internals self = Some l
    /\ prediction self = Some (mixture_record l)
    /\ 0 <= field_variance l
    /\ cohesion_index l == np_clip (1.0 / (field_variance l + 0.1)) 0.0 1.0
    /\ 0 <= cohesion_index l <= 1
    /\ clamped l = false
    /\ w_a l = 1.0 - w_b l - w_c l
    /\ w_b l = cohesion_index l * 0.8
    /\ w_c l = 0.05.
Proof.
  intros Hlen.
  destruct (internals_defined self Hlen) as [l Hl].
  exists l. split; [exact Hl|].
  split; [rewrite prediction_warm, Hl by exact Hlen; reflexivity|].
  destruct (internals_inv self l Hl)
    as (Hfa & (c & Hc & Hco) & Hw & _).
  destruct (field_analysis_defined (last_pos self) (map snd (field_vectors self)))
    as (fv & closest & rdir & Hfa' & Hfv & _).
  rewrite Hfa in Hfa'. injection Hfa' as <- <- <-.
  rewrite ndiv_Q_defined in Hc by (exact_arith; lra).
  injection Hc as <-. exact_arith.
  pose proof (np_clip_unit (1.0 / (field_variance l + 0.1))) as Hunit.
  exact_arith. rewrite <- Hco in Hunit.
  destruct (assign_weights_normal (cohesion_index l)) as [Hn _]; [tauto|].
  rewrite Hn in Hw. injection Hw as Hcl Hwa Hwb Hwc.
  rewrite <- Hwb, <- Hwc, <- Hwa, <- Hcl.
  split; [exact Hfv|].
  split; [rewrite Hco; reflexivity|].
  split; [exact Hunit|].
  repeat split.
Qed.

(** C4, amended (record shape).  In every state [predict] returns a record
    of one of the two shapes the code builds: a weighted scipy normal
    density, or a weighted mixture of three of them. *)
Theorem prediction_record_shape (self : State Q K) :
  exists d,
    prediction self = Some d
    /\ record_shape d = true
    /\ (weighted_norm d = true <-> (List.length (state_buffer self) < 5)%nat).
Proof.
  destruct (Nat.lt_ge_cases (List.length (state_buffer self)) 5) as [Hlt | Hge].
  - exists (warmup_record (last_pos self)).
    split; [apply prediction_warmup, Hlt|].
    split; [reflexivity|]. split; [intros _; exact Hlt | reflexivity].
  - destruct (warm_prediction self Hge) as (l & _ & Hp & _).
    exists (mixture_record l).
    split; [exact Hp|].
    split; [reflexivity|]. split; [discriminate | lia].
Qed.

End Exact.

(** ** Concrete runs *)

Section Runs.
Local Open Scope Q_scope.

(** The same run in binary64: centre 5 exactly, and the weights the
    specification quotes to three decimals. *)
Lemma end_to_end_binary64 :
  exists l,
    internals (ingest (map signal_obs [0; 1; 2; 3; 4]%float) init) = Some l
    /\ loc_a l = 5%float
    /\ loc_b l = loc_a l
    /\ (nabs (w_a l - lit 0.871) <? lit 0.001)%num = true
    /\ (nabs (cohesion_index l - lit 0.099) <? lit 0.001)%num = true.
Proof.
  eexists. split; [vm_compute; reflexivity|].
  repeat split; vm_compute; reflexivity.
Qed.

(** In binary64 too the clamp is not taken at the largest cohesion index, 1
    (two threats at one position): weight A is positive there. *)
Lemma swarm_binary64 :
  exists l,
    internals (ingest (map signal_obs [0; 1; 2; 3; 4]%float
                       ++ [threat_obs "a" 3%float; threat_obs "b" 3%float]) init)
      = Some l
    /\ cohesion_index l = 1%float
    /\ clamped l = false
    /\ (lit 0 <? w_a l)%num = true.
Proof.
  eexists. split; [vm_compute; reflexivity|].
  repeat split; vm_compute; reflexivity.
Qed.

(** C4, as worded, fails: neither the warmup record nor the mixture record
    has the keys [kind], [family], [location] of the interface wording. *)
Lemma interface_shape_fails :
  (exists d, prediction (init : State Q string) = Some d
             /\ interface_shape d = false
             /\ field "kind" d = None)
  /\ (exists d, prediction (ingest linear_run init) = Some d
                /\ interface_shape d = false
                /\ field "kind" d = None).
Proof.
  split; eexists; (split; [vm_compute; reflexivity|]); split; reflexivity.
Qed.


(** Witnesses: the properties above at concrete states. *)

Lemma warmup_single_density_witness :
  (List.length (state_buffer (ingest cold_run init)) < 5)%nat
  /\ exists d,
       prediction (ingest cold_run init) = Some d
       /\ at_path ["density"; "params"; "loc"]%string d = Some (PNum 3)
       /\ at_path ["density"; "params"; "scale"]%string d = Some (PNum 2.0)
       /\ at_path ["weight"]%string d = Some (PNum 1.0).
Proof.
  assert (Hlt : (List.length (state_buffer (ingest cold_run init)) < 5)%nat)
    by (vm_compute; lia).
  split; [exact Hlt|].
  destruct (warmup_single_density (ingest cold_run init) Hlt)
    as (d & Hd & _ & _ & _ & Hloc & Hsc & Hw & _).
  exists d. repeat split; assumption.
Defined.

Lemma bounded_history_witness :
  (buffer_size (init : State Q string) < List.length long_run)%nat
  /\ List.length (state_buffer (ingest long_run init)) = 25%nat
  /\ state_buffer (ingest long_run init) = lastn 25 (signals long_run).
Proof.
  assert (Hle : (List.length (state_buffer (init : State Q string))
                 <= buffer_size (init : State Q string))%nat)
    by (cbn; lia).
  assert (Hsig : Forall (fun pm => dove_location (fst pm) <> None) long_run).
  { apply Forall_forall. intros pm Hin.
    apply in_map_iff in Hin. destruct Hin as (i & <- & _). discriminate. }
  assert (Hlt : (buffer_size (init : State Q string) < List.length long_run)%nat)
    by (vm_compute; lia).
  split; [exact Hlt|].
  destruct (bounded_history long_run init Hle Hsig Hlt) as (Hlen & Hbuf & _).
  split; assumption.
Defined.

Lemma threat_overwrite_witness :
  dict_ok (field_vectors (init : State Q string))
  /\ entries "t1"%string
       (field_vectors
          (after_tick (fst (threat_obs "t1" 7)) []
             (after_tick (fst (threat_obs "t1" 4)) [] init)))
     = [("t1"%string, 7)].
Proof.
  assert (Hok : dict_ok (field_vectors (init : State Q string)))
    by (cbn; constructor).
  split; [exact Hok|].
  apply (threat_overwrite init "t1"%string 4 7
           (fst (threat_obs "t1" 4)) (fst (threat_obs "t1" 7)) [] [] Hok
           eq_refl eq_refl eq_refl eq_refl).
Defined.

End Runs.

(** * Further properties of the code *)

(** ** Ingestion *)

Section TickMore.
Context {A : Type} `{Number A} {K : Type} `{Key K}.

(** A tick whose payload has no signal position and lacks the threat
    position or the threat identifier returns normally and changes
    nothing. *)
Theorem tick_absent_fields (p : Payload A K) (m : Metrics A) (self : State A K) :
  dove_location p = None ->
  falcon_location p = None \/ falcon_id p = None ->
  tick p m self = (Some tt, self).
Proof.
  intros Hd Ht. destruct p as [d tloc tid]. cbn in Hd, Ht. subst d.
  unfold tick, bind, ret. cbn.
  destruct Ht as [-> | ->]; [reflexivity|].
  destruct tloc; reflexivity.
Qed.

(** The state after a run of ticks depends on the payloads only: the
    performance metrics are never read. *)
Theorem ingest_ignores_metrics (obs1 obs2 : list (Payload A K * Metrics A))
    (self : State A K) :
  map fst obs1 = map fst obs2 ->
  ingest obs1 self = ingest obs2 self.
Proof.
  revert obs2 self.
  induction obs1 as [| [p1 m1] obs1 IH]; intros [| [p2 m2] obs2] self Heq;
    try discriminate; [reflexivity|].
  cbn in Heq. injection Heq as -> Heq.
  cbn [ingest fold_left fst snd].
  change (fold_left _ ?o ?s) with (ingest o s).
  now apply IH.
Qed.

Lemma last_skipn {X : Type} (k : nat) (l : list X) (d : X) :
  k < List.length l -> last (skipn k l) d = last l d.
Proof.
  revert k. induction l as [| x l IH]; intros k Hk; cbn in Hk; [lia|].
  destruct k as [| k]; [reflexivity|].
  cbn [skipn]. rewrite IH by lia.
  destruct l; [cbn in Hk; lia | reflexivity].
Qed.

Lemma last_lastn {X : Type} (n : nat) (l : list X) (d : X) :
  0 < n -> last (lastn n l) d = last l d.
Proof.
  intros Hn. unfold lastn.
  destruct l as [| x l]; [reflexivity|].
  apply last_skipn. cbn [List.length]. lia.
Qed.

Lemma last_cons_default {X : Type} (c : X) (l : list X) (d : X) :
  last (c :: l) d = last l c.
Proof.
  revert c d. induction l as [| a l IH]; intros c d; [reflexivity|].
  change (last (c :: a :: l) d) with (last (a :: l) d).
  now rewrite (IH a d), (IH a c).
Qed.

Lemma ingest_last_pos (obs : list (Payload A K * Metrics A)) (self : State A K) :
  last_pos (ingest obs self) = last (signals obs) (last_pos self).
Proof.
  revert self. induction obs as [| [p m] obs IH]; intros self; [reflexivity|].
  cbn [ingest fold_left fst snd].
  change (fold_left _ ?o ?s) with (ingest o s).
  rewrite IH, after_tick_eq. unfold signals. cbn [flat_map fst].
  fold (signals obs).
  destruct p as [[c|] [tloc|] [tid|]]; cbn [dove_location falcon_location falcon_id
    last_pos set_field_vectors app];
    try reflexivity; now rewrite last_cons_default.
Qed.

(** The history of an estimator that started fresh: whatever was ingested,
    the buffer holds the last 25 signal positions received (all of them while
    there are at most 25), oldest first, and the capacity is still 25. *)
Theorem history_invariant (obs : list (Payload A K * Metrics A)) :
  state_buffer (ingest obs init) = lastn 25 (signals obs)
  /\ List.length (state_buffer (ingest obs init))
     = Nat.min 25 (List.length (signals obs))
  /\ buffer_size (ingest obs init) = 25.
Proof.
  destruct (ingest_state_buffer obs init) as [Hbuf Hsz]; [cbn; lia|].
  cbn [init state_buffer buffer_size app] in Hbuf, Hsz.
  rewrite Hbuf, lastn_length. auto.
Qed.

(** In every state reached from a fresh estimator, [last_pos] is the newest
    sample of the history (and the zero default while the history is
    empty). *)
Theorem last_pos_newest_sample (obs : list (Payload A K * Metrics A)) :
  last_elt (state_buffer (ingest obs init)) = last_pos (ingest obs init).
Proof.
  destruct (ingest_state_buffer obs init) as [Hbuf _]; [cbn; lia|].
  cbn [init state_buffer buffer_size app] in Hbuf.
  unfold last_elt. rewrite Hbuf, ingest_last_pos, last_lastn by lia.
  reflexivity.
Qed.

(** A tick leaves the entries of every identifier other than its own
    untouched. *)
Theorem tick_keeps_other_threats (p : Payload A K) (m : Metrics A)
    (self : State A K) (k0 : K) :
  falcon_id p <> Some k0 ->
  entries k0 (field_vectors (after_tick p m self)) = entries k0 (field_vectors self).
Proof.
  intros Hne. rewrite after_tick_field_vectors.
  destruct (falcon_location p) as [tloc|]; [|reflexivity].
  destruct (falcon_id p) as [tid|]; [|reflexivity].
  apply dict_set_other. congruence.
Qed.

(** A threat tick keeps the insertion order of the identifiers: a known
    identifier keeps its place, a new one goes last. *)
Theorem tick_threat_key_order (p : Payload A K) (m : Metrics A)
    (self : State A K) (k : K) (t : A) :
  falcon_id p = Some k ->
  falcon_location p = Some t ->
  let keys := map fst (field_vectors self) in
  let keys' := map fst (field_vectors (after_tick p m self)) in
  (In k keys -> keys' = keys) /\ (~ In k keys -> keys' = keys ++ [k]).
Proof.
  intros Hk Ht keys keys'. subst keys keys'.
  rewrite after_tick_field_vectors, Hk, Ht. split; intros Hin.
  - now apply dict_set_keys_present.
  - rewrite dict_set_absent, map_app by exact Hin. reflexivity.
Qed.

(** No tick ever removes a threat: an identifier in the threat field stays
    there through any run of observations. *)
Theorem threats_never_removed (obs : list (Payload A K * Metrics A))
    (self : State A K) (k : K) :
  In k (map fst (field_vectors self)) ->
  In k (map fst (field_vectors (ingest obs self))).
Proof.
  revert self. induction obs as [| [p m] obs IH]; intros self Hin; [exact Hin|].
  cbn [ingest fold_left fst snd].
  change (fold_left _ ?o ?s) with (ingest o s).
  apply IH. rewrite after_tick_field_vectors.
  destruct (falcon_location p) as [tloc|]; [|exact Hin].
  destruct (falcon_id p) as [tid|]; [|exact Hin].
  destruct (in_dec (fun x y => reflect_dec _ _ (key_eqb_spec x y)) tid
              (map fst (field_vectors self))) as [Hp | Ha].
  - now rewrite dict_set_keys_present.
  - rewrite dict_set_absent, map_app by exact Ha. apply in_or_app. now left.
Qed.

Lemma push_length (cap : nat) (b : list A) (c : A) :
  List.length (push cap b c) <= S (List.length b).
Proof.
  unfold push. destruct (cap <? List.length (b ++ [c])).
  - destruct b; cbn; rewrite ?length_app; cbn; lia.
  - rewrite length_app. cbn. lia.
Qed.

(** Ingestion then prediction, cold: with fewer than four samples in the
    history, a tick that carries the signal position [c] makes the next
    prediction the warmup record centred at [c]. *)
Theorem predict_after_cold_tick (p : Payload A K) (m : Metrics A)
    (self : State A K) (c : A) :
  List.length (state_buffer self) < 4 ->
  dove_location p = Some c ->
  prediction (after_tick p m self) = Some (warmup_record c).
Proof.
  intros Hlen Hc.
  assert (Hlp : last_pos (after_tick p m self) = c).
  { rewrite after_tick_eq, Hc.
    destruct (falcon_location p), (falcon_id p); reflexivity. }
  rewrite prediction_warmup, Hlp; [reflexivity|].
  rewrite after_tick_state_buffer, Hc.
  pose proof (push_length (buffer_size self) (state_buffer self) c). lia.
Qed.

End TickMore.

(** ** The inertial forecast *)

Section MotionFacts.
Context {A : Type} `{Number A} {K : Type} `{Key K}.

Lemma internals_motion (self : State A K) (l : Locals A) :
  internals self = Some l ->
  exists g gg,
    np_gradient (state_buffer self) = Some g
    /\ np_gradient g = Some gg
    /\ velocity l = last_elt g
    /\ acceleration l = last_elt gg.
Proof.
  unfold internals.
  destruct (np_gradient (state_buffer self)) as [g|] eqn:Hg; [|discriminate].
  cbn [obind].
  destruct (np_gradient g) as [gg|] eqn:Hgg; [|discriminate].
  cbn [obind].
  destruct (field_analysis _ _) as [[[fv closest] rdir]|]; [|discriminate].
  cbn [obind].
  destruct closest as [t|]; cbv beta iota zeta;
    (destruct (ndiv (lit 1.0) (nadd fv (lit 0.1))) as [c|]; [|discriminate]);
    cbn [obind];
    destruct (assign_weights _) as [cl [[wa wb] wc]];
    intros [= <-]; cbn; exists g, gg; auto.
Qed.

Lemma omap_map {X Y : Type} (f : X -> option Y) (g : X -> Y) (l : list X) :
  (forall x, In x l -> f x = Some (g x)) -> omap f l = Some (map g l).
Proof.
  induction l as [| x l IH]; intros Hf; [reflexivity|].
  cbn. rewrite (Hf x (or_introl eq_refl)). cbn.
  rewrite IH; [reflexivity|]. intros y Hy. apply Hf. now right.
Qed.

Lemma last_map_seq {Y : Type} (g : nat -> Y) (n : nat) (d : Y) :
  0 < n -> last (map g (seq 0 n)) d = g (n - 1).
Proof.
  intros Hn. destruct n as [| n]; [lia|].
  rewrite seq_S, map_app. cbn [map]. rewrite last_last. f_equal. lia.
Qed.

Lemma nth_map_seq {Y : Type} (g : nat -> Y) (n i : nat) (d : Y) :
  i < n -> nth i (map g (seq 0 n)) d = g i.
Proof.
  intros Hi. rewrite (nth_indep _ d (g 0)) by (now rewrite length_map, length_seq).
  rewrite (map_nth g (seq 0 n) 0 i), seq_nth by exact Hi. reflexivity.
Qed.

End MotionFacts.

Section ExactMotion.
Context {K : Type} `{Key K}.
Local Open Scope Q_scope.

(** [np.gradient] in exact arithmetic, element by element. *)
Lemma np_gradient_exact (f : list Q) :
  (2 <= List.length f)%nat ->
  np_gradient f = Some (map (gradient_at f) (seq 0 (List.length f))).
Proof.
  intros Hlen. unfold np_gradient.
  apply Nat.ltb_ge in Hlen. rewrite Hlen.
  apply omap_map. intros i _. unfold gradient_at.
  destruct (i =? 0)%nat; [reflexivity|].
  destruct (i =? List.length f - 1)%nat; [reflexivity|].
  apply ndiv_Q_defined. discriminate.
Qed.

Lemma nth_tail3 (pre : list Q) (b3 b2 b1 : Q) :
  let f := pre ++ [b3; b2; b1] in
  let n := List.length f in
  nth (n - 1) f 0 = b1 /\ nth (n - 2) f 0 = b2 /\ nth (n - 3) f 0 = b3.
Proof.
  cbn zeta. rewrite length_app. cbn [List.length].
  repeat split; rewrite app_nth2 by lia.
  - replace (_ - _ - _)%nat with 2%nat by lia. reflexivity.
  - replace (_ - _ - _)%nat with 1%nat by lia. reflexivity.
  - replace (_ - _ - _)%nat with 0%nat by lia. reflexivity.
Qed.

Lemma motion_last_three (self : State Q K) (pre : list Q) (b3 b2 b1 : Q) :
  state_buffer self = pre ++ [b3; b2; b1] ->
  (2 <= List.length pre)%nat ->
  exists l,
    internals self = Some l
    /\ velocity l = b1 - b2
    /\ acceleration l = (b1 - b2) - (b1 - b3) / 2
    /\ loc_a l = last_pos self + velocity l + 0.5 * acceleration l.
Proof.
  intros Hbuf Hpre.
  assert (Hn : (5 <= List.length (state_buffer self))%nat).
  { rewrite Hbuf, length_app. cbn. lia. }
  destruct (internals_defined self Hn) as [l Hl].
  destruct (internals_motion self l Hl) as (g & gg & Hg & Hgg & Hv & Ha).
  destruct (internals_inv self l Hl) as (_ & _ & _ & Hla & Him & _).
  rewrite np_gradient_exact in Hg by lia. injection Hg as Hg.
  assert (Hglen : List.length g = List.length (state_buffer self)).
  { rewrite <- Hg, length_map, length_seq. reflexivity. }
  rewrite np_gradient_exact in Hgg by lia. injection Hgg as Hgg.
  destruct (nth_tail3 pre b3 b2 b1) as (H1 & H2 & H3).
  rewrite <- Hbuf in H1, H2, H3.
  set (n := List.length (state_buffer self)) in *.
  assert (Hlast : gradient_at (state_buffer self) (n - 1) = b1 - b2).
  { unfold gradient_at. fold n.
    destruct (Nat.eqb_spec (n - 1) 0); [lia|].
    rewrite Nat.eqb_refl, H1, H2. reflexivity. }
  assert (Hprev : gradient_at (state_buffer self) (n - 2) = (b1 - b3) / 2).
  { unfold gradient_at. fold n.
    destruct (Nat.eqb_spec (n - 2) 0); [lia|].
    destruct (Nat.eqb_spec (n - 2) (n - 1)); [lia|].
    replace (n - 2 + 1)%nat with (n - 1)%nat by lia.
    replace (n - 2 - 1)%nat with (n - 3)%nat by lia.
    rewrite H1, H3. reflexivity. }
  exists l. split; [exact Hl|]. split; [|split].
  - rewrite Hv, <- Hg. unfold last_elt.
    rewrite last_map_seq by lia. exact Hlast.
  - rewrite Ha, <- Hgg. unfold last_elt.
    rewrite last_map_seq by lia. unfold gradient_at. rewrite Hglen. fold n.
    destruct (Nat.eqb_spec (n - 1) 0); [lia|].
    rewrite Nat.eqb_refl, <- Hg, !nth_map_seq by lia.
    rewrite Hlast, Hprev. reflexivity.
  - rewrite Hla, Him. reflexivity.
Qed.

(** The inertial forecast reads only the last three samples [b3, b2, b1] of
    a warm history: the velocity is the last difference [b1 - b2], the
    acceleration is [(b1 - b2) - (b1 - b3) / 2], and component A is centred
    at [last_pos + (b1 - b2) + (b1 - 2 b2 + b3) / 4]. *)
Theorem inertial_forecast_closed_form (self : State Q K) (pre : list Q) (b3 b2 b1 : Q) :
  state_buffer self = pre ++ [b3; b2; b1] ->
  (2 <= List.length pre)%nat ->
  exists l,
    internals self = Some l
    /\ velocity l = b1 - b2
    /\ acceleration l = (b1 - b2) - (b1 - b3) / 2
    /\ loc_a l == last_pos self + (b1 - b2) + (b1 - 2 * b2 + b3) / 4.
Proof.
  intros Hbuf Hpre.
  destruct (motion_last_three self pre b3 b2 b1 Hbuf Hpre)
    as (l & Hl & Hv & Ha & Hla).
  exists l. repeat split; try assumption.
  rewrite Hla, Hv, Ha. field.
Qed.

(** Motion at a constant velocity [d] over the last three samples is
    extrapolated exactly: no acceleration, and component A is centred one
    step ahead, at [last_pos + d]. *)
Theorem constant_velocity_extrapolated (self : State Q K) (pre : list Q)
    (b3 b2 b1 d : Q) :
  state_buffer self = pre ++ [b3; b2; b1] ->
  (2 <= List.length pre)%nat ->
  b1 - b2 == d ->
  b2 - b3 == d ->
  exists l,
    internals self = Some l
    /\ velocity l == d
    /\ acceleration l == 0
    /\ loc_a l == last_pos self + d.
Proof.
  intros Hbuf Hpre H12 H23.
  destruct (motion_last_three self pre b3 b2 b1 Hbuf Hpre)
    as (l & Hl & Hv & Ha & Hla).
  assert (Hacc0 : acceleration l == 0).
  { rewrite Ha.
    setoid_replace (b1 - b2 - (b1 - b3) / 2)
      with ((b1 - 2 * b2 + b3) * (1 # 2)) by field.
    lra. }
  exists l. split; [exact Hl|].
  split; [rewrite Hv; exact H12|].
  split; [exact Hacc0|].
  rewrite Hla, Hacc0, Hv, H12. ring.
Qed.

End ExactMotion.

(** ** The threat analysis *)

Section ThreatFacts.
Context {A : Type} `{Number A} {K : Type} `{Key K}.

(** What [field_analysis] computes when there is a threat. *)
Lemma field_analysis_closest (lastp : A) (threats : list A)
    (fv : A) (closest : option A) (rdir : A) :
  threats <> [] ->
  field_analysis lastp threats = Some (fv, closest, rdir) ->
  exists j,
    np_argmin (map (fun t => nabs (nsub t lastp)) threats) = Some j
    /\ closest = Some (nth j threats (lit 0))
    /\ rdir = np_sign (nsub lastp (nth j threats (lit 0)))
    /\ (if (1 <? List.length threats)%nat then np_var threats else Some (lit 1.0))
       = Some fv.
Proof.
  intros Hne. unfold field_analysis.
  assert (Hpos : (0 <? List.length threats)%nat = true).
  { destruct threats; [congruence | reflexivity]. }
  rewrite Hpos.
  destruct (if (1 <? List.length threats)%nat then np_var threats else Some (lit 1.0))
    as [v|]; [|discriminate].
  cbn [obind].
  destruct (np_argmin _) as [j|]; [|discriminate].
  cbn [obind]. intros [= <- <- <-]. exists j. auto.
Qed.

Lemma field_analysis_empty (lastp : A) :
  field_analysis lastp [] = Some (lit 10.0, None, lit 0).
Proof. reflexivity. Qed.

End ThreatFacts.

Section ExactThreats.
Context {K : Type} `{Key K}.
Local Open Scope Q_scope.

Lemma np_sign_exact (x : Q) :
  (0 < x -> np_sign x = 1)
  /\ (x < 0 -> np_sign x = -1)
  /\ (x == 0 -> np_sign x = 0).
Proof.
  unfold np_sign. exact_arith.
  destruct (Qle_bool x 0) eqn:E1; destruct (Qle_bool 0 x) eqn:E2; cbn [negb];
    try (apply Qle_bool_iff in E1); try (apply Qle_bool_iff in E2).
  - assert (Hx : x == 0) by lra.
    apply Qeq_bool_iff in Hx. rewrite Hx.
    repeat split; intros; try reflexivity; lra.
  - repeat split; intros; try reflexivity.
    + lra.
    + assert (Hle : 0 <= x) by lra. apply Qle_bool_iff in Hle. congruence.
  - repeat split; intros; try reflexivity.
    + assert (Hle : x <= 0) by lra. apply Qle_bool_iff in Hle. congruence.
    + assert (Hle : x <= 0) by lra. apply Qle_bool_iff in Hle. congruence.
  - assert (Hle : x <= 0 \/ 0 <= x) by (destruct (Qlt_le_dec x 0); [left | right]; lra).
    destruct Hle as [Hle | Hle]; apply Qle_bool_iff in Hle; congruence.
Qed.

(** The scan of [np.argmin], in exact arithmetic: after the prefix [done]
    with running minimum [mp] at index [mi], the result is the index of the
    first minimum of the whole array. *)
Lemma argmin_from_spec (r done : list Q) (mp : Q) (mi : nat) :
  (mi < List.length done)%nat ->
  nth mi done 0 = mp ->
  (forall i, (i < List.length done)%nat -> mp <= nth i done 0) ->
  (forall i, (i < mi)%nat -> mp < nth i done 0) ->
  let a := done ++ r in
  let j := argmin_from mp mi (List.length done) r in
  (j < List.length a)%nat
  /\ (forall i, (i < List.length a)%nat -> nth j a 0 <= nth i a 0)
  /\ (forall i, (i < j)%nat -> nth j a 0 < nth i a 0).
Proof.
  revert done mp mi.
  induction r as [| x r IH]; intros done mp mi Hmi Hmp Hmin Hfirst; cbn zeta.
  - cbn [argmin_from]. rewrite app_nil_r, Hmp. auto.
  - cbn [argmin_from]. rewrite is_nan_Q. exact_arith.
    replace (done ++ x :: r) with ((done ++ [x]) ++ r)
      by (rewrite <- app_assoc; reflexivity).
    replace (S (List.length done)) with (List.length (done ++ [x]))
      by (rewrite length_app; cbn; lia).
    assert (Hx : nth (List.length done) (done ++ [x]) 0 = x).
    { rewrite app_nth2 by lia. rewrite Nat.sub_diag. reflexivity. }
    assert (Hold : forall i, (i < List.length done)%nat ->
                             nth i (done ++ [x]) 0 = nth i done 0).
    { intros i Hi. now rewrite app_nth1. }
    assert (Hcases : forall i, (i < List.length (done ++ [x]))%nat ->
                               (i < List.length done)%nat \/ i = List.length done).
    { intros i Hi. rewrite length_app in Hi. cbn in Hi. lia. }
    destruct (Qle_bool mp x) eqn:E; cbn [negb].
    + apply Qle_bool_iff in E.
      apply IH.
      * rewrite length_app. cbn. lia.
      * rewrite Hold by exact Hmi. exact Hmp.
      * intros i Hi. destruct (Hcases i Hi) as [Hlt | ->].
        -- rewrite Hold by exact Hlt. now apply Hmin.
        -- now rewrite Hx.
      * intros i Hi. rewrite Hold by lia. now apply Hfirst.
    + assert (Hlt : x < mp).
      { destruct (Qlt_le_dec x mp) as [Hl | Hl]; [exact Hl|].
        apply Qle_bool_iff in Hl. congruence. }
      apply IH.
      * rewrite length_app. cbn. lia.
      * exact Hx.
      * intros i Hi. destruct (Hcases i Hi) as [Hi' | ->].
        -- rewrite Hold by exact Hi'. pose proof (Hmin i Hi'). lra.
        -- rewrite Hx. lra.
      * intros i Hi. rewrite Hold by exact Hi. pose proof (Hmin i Hi). lra.
Qed.

(** [np.argmin] on a non-empty array of rationals returns the index of its
    first minimum: no element is smaller, and every earlier element is
    strictly larger. *)
Theorem np_argmin_first_minimum (a : list Q) :
  a <> [] ->
  exists j,
    np_argmin a = Some j
    /\ (j < List.length a)%nat
    /\ (forall i, (i < List.length a)%nat -> nth j a 0 <= nth i a 0)
    /\ (forall i, (i < j)%nat -> nth j a 0 < nth i a 0).
Proof.
  destruct a as [| x r]; [congruence|]. intros _.
  unfold np_argmin. rewrite is_nan_Q.
  eexists. split; [reflexivity|].
  apply (argmin_from_spec r [x] x 0).
  - cbn. lia.
  - reflexivity.
  - intros i Hi. cbn in Hi. replace i with 0%nat by lia. cbn. lra.
  - intros i Hi. lia.
Qed.

(** The threat analysis of a warm state with at least one threat. *)
Lemma threat_analysis (self : State Q K) :
  (5 <= List.length (state_buffer self))%nat ->
  field_vectors self <> [] ->
  exists l j,
    internals self = Some l
    /\ np_argmin (map (fun t => Qabs (t - last_pos self)) (threats_of self)) = Some j
    /\ closest_threat_loc l = Some (nth j (threats_of self) 0)
    /\ repulsion_dir l = np_sign (last_pos self - nth j (threats_of self) 0)
    /\ loc_b l = last_pos self + 2.4 * repulsion_dir l
    /\ scale_b l = 0.15.
Proof.
  intros Hlen Hne.
  destruct (internals_defined self Hlen) as [l Hl].
  destruct (internals_inv self l Hl) as (Hfa & _ & _ & _ & _ & _ & Hb & _).
  apply field_analysis_closest in Hfa.
  2:{ destruct (field_vectors self); [congruence | discriminate]. }
  destruct Hfa as (j & Hj & Hcl & Hrd & _).
  rewrite Hcl in Hb. injection Hb as Hlb Hsb.
  exists l, j. repeat split; assumption.
Qed.

(** In exact arithmetic: with at least one threat and a warm history, the
    closest threat that [predict] picks is a threat at minimal distance from
    [last_pos], and among those at that distance the one whose identifier was
    inserted first. *)
Theorem closest_threat_is_nearest (self : State Q K) :
  (5 <= List.length (state_buffer self))%nat ->
  field_vectors self <> [] ->
  exists l j,
    internals self = Some l
    /\ (j < List.length (threats_of self))%nat
    /\ closest_threat_loc l = Some (nth j (threats_of self) 0)
    /\ (forall i, (i < List.length (threats_of self))%nat ->
          Qabs (nth j (threats_of self) 0 - last_pos self)
          <= Qabs (nth i (threats_of self) 0 - last_pos self))
    /\ (forall i, (i < j)%nat ->
          Qabs (nth j (threats_of self) 0 - last_pos self)
          < Qabs (nth i (threats_of self) 0 - last_pos self)).
Proof.
  intros Hlen Hne.
  destruct (threat_analysis self Hlen Hne) as (l & j & Hl & Hj & Hcl & _).
  set (dist := fun t : Q => Qabs (t - last_pos self)) in *.
  destruct (np_argmin_first_minimum (map dist (threats_of self)))
    as (j' & Hj' & Hlt & Hmin & Hfirst).
  { unfold threats_of. destruct (field_vectors self); [congruence | discriminate]. }
  rewrite Hj in Hj'. injection Hj' as <-.
  rewrite length_map in Hlt, Hmin.
  assert (Hnth : forall i, (i < List.length (threats_of self))%nat ->
                           nth i (map dist (threats_of self)) 0
                           = dist (nth i (threats_of self) 0)).
  { intros i Hi.
    rewrite (nth_indep _ 0 (dist 0)) by (now rewrite length_map).
    apply map_nth. }
  exists l, j. split; [exact Hl|]. split; [exact Hlt|]. split; [exact Hcl|].
  split.
  - intros i Hi. pose proof (Hmin i Hi) as Hm.
    rewrite !Hnth in Hm by assumption. exact Hm.
  - intros i Hi. pose proof (Hfirst i Hi) as Hm.
    rewrite !Hnth in Hm by lia. exact Hm.
Qed.

(** In exact arithmetic: component B steps away from the closest threat,
    2.4 above [last_pos] when the threat is below, 2.4 below when it is above,
    and it stays at [last_pos] when the threat sits exactly there; its scale
    is 0.15. *)
Theorem evasion_direction (self : State Q K) :
  (5 <= List.length (state_buffer self))%nat ->
  field_vectors self <> [] ->
  exists l t,
    internals self = Some l
    /\ closest_threat_loc l = Some t
    /\ In t (threats_of self)
    /\ scale_b l = 0.15
    /\ (t < last_pos self -> loc_b l == last_pos self + 2.4)
    /\ (last_pos self < t -> loc_b l == last_pos self - 2.4)
    /\ (t == last_pos self -> loc_b l == last_pos self).
Proof.
  intros Hlen Hne.
  destruct (threat_analysis self Hlen Hne)
    as (l & j & Hl & Hj & Hcl & Hrd & Hlb & Hsb).
  destruct (np_argmin_first_minimum
              (map (fun t => Qabs (t - last_pos self)) (threats_of self)))
    as (j' & Hj' & Hlt & _).
  { unfold threats_of. destruct (field_vectors self); [congruence | discriminate]. }
  rewrite Hj in Hj'. injection Hj' as <-. rewrite length_map in Hlt.
  set (t := nth j (threats_of self) 0) in *.
  destruct (np_sign_exact (last_pos self - t)) as (Hpos & Hneg & Hzero).
  exists l, t. split; [exact Hl|]. split; [exact Hcl|].
  split; [apply nth_In, Hlt|]. split; [exact Hsb|].
  rewrite Hlb, Hrd. repeat split; intros Ht.
  - rewrite Hpos by lra. ring.
  - rewrite Hneg by lra. ring.
  - rewrite Hzero by lra. ring.
Qed.

End ExactThreats.

(** ** Variance, cohesion and the spreads *)

Section ExactWeights.
Context {K : Type} `{Key K}.
Local Open Scope Q_scope.

(** The clipped cohesion as a function of the field variance: it saturates
    at 1 up to variance 0.9 and is the plain quotient above. *)
Lemma cohesion_of_variance (fv : Q) :
  0 <= fv ->
  (fv <= 0.9 -> np_clip (1.0 / (fv + 0.1)) 0.0 1.0 == 1)
  /\ (0.9 <= fv -> np_clip (1.0 / (fv + 0.1)) 0.0 1.0 == 1 / (fv + 0.1)).
Proof.
  intros Hfv.
  assert (Hpos : 0 < fv + 0.1) by lra.
  assert (Hq : 0.0 <= 1.0 / (fv + 0.1)).
  { apply Qle_shift_div_l; [exact Hpos | lra]. }
  unfold np_clip, np_minimum, np_maximum.
  rewrite !is_nan_Q, !orb_false_r. exact_arith.
  apply Qle_bool_iff in Hq. rewrite Hq.
  split; intros Hc.
  - destruct (Qle_bool (1.0 / (fv + 0.1)) 1.0) eqn:E; [|reflexivity].
    apply Qle_bool_iff in E.
    assert (Hge : 1 <= 1.0 / (fv + 0.1)).
    { apply Qle_shift_div_l; [exact Hpos | lra]. }
    lra.
  - assert (Hle : 1.0 / (fv + 0.1) <= 1.0).
    { apply Qle_shift_div_r; [exact Hpos | lra]. }
    apply Qle_bool_iff in Hle. rewrite Hle. field. lra.
Qed.

(** How the weights follow the field variance in a warm prediction: up to
    variance 0.9 the cohesion is saturated, weight B is 0.8 and weight A is
    at its floor 0.15; above, cohesion is 1/(variance + 0.1) and weight B is
    0.8/(variance + 0.1). *)
Theorem cohesion_saturation (self : State Q K) :
  (5 <= List.length (state_buffer self))%nat ->
  exists l,
    internals self = Some l
    /\ (field_variance l <= 0.9 ->
        cohesion_index l == 1 /\ w_b l == 0.8 /\ w_a l == 0.15)
    /\ (0.9 <= field_variance l ->
        cohesion_index l == 1 / (field_variance l + 0.1)
        /\ w_b l == 0.8 / (field_variance l + 0.1)).
Proof.
  intros Hlen.
  destruct (warm_prediction self Hlen)
    as (l & Hl & _ & Hfv & Hco & _ & _ & Hwa & Hwb & Hwc).
  destruct (cohesion_of_variance (field_variance l) Hfv) as [Hsat Hquo].
  exists l. split; [exact Hl|]. split; intros Hc.
  - assert (H1 : cohesion_index l == 1) by (rewrite Hco; now apply Hsat).
    split; [exact H1|]. rewrite Hwa, Hwc, Hwb, H1. split; reflexivity.
  - assert (H1 : cohesion_index l == 1 / (field_variance l + 0.1))
      by (rewrite Hco; now apply Hquo).
    split; [exact H1|]. rewrite Hwb, H1. field. lra.
Qed.

(** The single-threat sentinel, in exact arithmetic: with exactly one
    threat, at [t], the field variance is 1.0 (not the zero variance of a
    one-element array), so the cohesion is 1/1.1, weight B is 0.8/1.1 and the
    spread of A is 0.3; the closest threat is [t]. *)
Theorem single_threat_sentinel (self : State Q K) (k : K) (t : Q) :
  (5 <= List.length (state_buffer self))%nat ->
  field_vectors self = [(k, t)] ->
  exists l,
    internals self = Some l
    /\ field_variance l = 1.0
    /\ closest_threat_loc l = Some t
    /\ cohesion_index l == 1 / 1.1
    /\ w_b l == 0.8 / 1.1
    /\ scale_a l == 0.3.
Proof.
  intros Hlen Hfvs.
  destruct (warm_prediction self Hlen)
    as (l & Hl & _ & Hfv & Hco & _ & _ & _ & Hwb & _).
  destruct (internals_inv self l Hl) as (Hfa & _ & _ & _ & _ & Hsa & _).
  apply field_analysis_closest in Hfa; [|rewrite Hfvs; discriminate].
  destruct Hfa as (j & Hj & Hcl & _ & Hvar).
  rewrite Hfvs in Hj, Hcl, Hvar. cbn [map snd List.length Nat.ltb Nat.leb] in *.
  injection Hvar as Hvar. exact_arith.
  assert (Hj0 : j = 0%nat).
  { unfold np_argmin in Hj. cbn [argmin_from] in Hj.
    destruct (is_nan _) in Hj; injection Hj as <-; reflexivity. }
  subst j. cbn [nth] in Hcl.
  exists l. split; [exact Hl|]. split; [auto|]. split; [exact Hcl|].
  rewrite Hwb, Hco, Hsa, <- Hvar.
  repeat split; vm_compute; reflexivity.
Qed.

Lemma fold_left_repeat (c acc : Q) (n : nat) :
  fold_left Qplus (repeat c n) acc == acc + inject_Z (Z.of_nat n) * c.
Proof.
  revert acc. induction n as [| n IH]; intros acc.
  - cbn. ring.
  - cbn [repeat fold_left]. rewrite IH, Nat2Z.inj_succ.
    unfold Z.succ. rewrite inject_Z_plus. ring.
Qed.

Lemma fold_left_zeros (r : list Q) (acc : Q) :
  Forall (fun y => y == 0) r -> fold_left Qplus r acc == acc.
Proof.
  revert acc. induction r as [| y r IH]; intros acc Hr; [reflexivity|].
  inversion Hr as [| ? ? Hy Hr']; subst. cbn [fold_left].
  rewrite IH by exact Hr'. rewrite Hy. ring.
Qed.

(** The variance of two or more equal values is zero. *)
Lemma np_var_repeat (c : Q) (n : nat) :
  (0 < n)%nat ->
  exists v, np_var (repeat c n) = Some v /\ v == 0.
Proof.
  intros Hn. pose proof (of_len_pos n Hn) as Hpos.
  unfold np_var, np_mean. rewrite repeat_length.
  rewrite ndiv_Q_defined by lra. cbn [obind].
  rewrite ndiv_Q_defined by lra.
  eexists. split; [reflexivity|].
  assert (Hmean : np_sum (repeat c n) / of_len n == c).
  { destruct n as [| n]; [lia|].
    cbn [repeat np_sum]. exact_arith. rewrite fold_left_repeat.
    unfold of_len. exact_arith.
    assert (Hs : inject_Z (Z.of_nat (S n)) == inject_Z (Z.of_nat n) + 1).
    { rewrite Nat2Z.inj_succ. unfold Z.succ. rewrite inject_Z_plus. reflexivity. }
    assert (Hx : 0 <= inject_Z (Z.of_nat n)).
    { unfold Qle. cbn. lia. }
    rewrite Hs. generalize dependent (inject_Z (Z.of_nat n)).
    intros x _ Hx. field. lra. }
  assert (Hsq : np_sum (map (fun v => (v * v)%num)
                          (map (fun v => (v - np_sum (repeat c n) / of_len n)%num)
                             (repeat c n))) == 0).
  { rewrite map_map.
    assert (Hall : Forall (fun y => y == 0)
                     (map (fun x => ((x - np_sum (repeat c n) / of_len n)
                                     * (x - np_sum (repeat c n) / of_len n))%num)
                        (repeat c n))).
    { apply Forall_map, Forall_forall. intros x Hx.
      apply repeat_spec in Hx. subst x. exact_arith. rewrite Hmean. ring. }
    destruct (map _ (repeat c n)) as [| y r]; [reflexivity|].
    inversion Hall as [| ? ? Hy Hr]; subst.
    cbn [np_sum]. exact_arith. rewrite fold_left_zeros by exact Hr. exact Hy. }
  rewrite Hsq. field. lra.
Qed.

(** In exact arithmetic: two or more threats at one position give zero
    field variance, saturated cohesion, and the weights at their extremes,
    A = 0.15, B = 0.8, C = 0.05; the floor 0.15 of weight A is attained. *)
Theorem coincident_threats_saturate (self : State Q K) (c : Q) (n : nat) :
  (5 <= List.length (state_buffer self))%nat ->
  (2 <= n)%nat ->
  threats_of self = repeat c n ->
  exists l,
    internals self = Some l
    /\ field_variance l == 0
    /\ cohesion_index l == 1
    /\ w_a l == 0.15 /\ w_b l == 0.8 /\ w_c l = 0.05.
Proof.
  intros Hlen Hn Hthreats.
  destruct (warm_prediction self Hlen)
    as (l & Hl & _ & Hfv & Hco & _ & _ & Hwa & Hwb & Hwc).
  destruct (internals_inv self l Hl) as (Hfa & _).
  fold (threats_of self) in Hfa.
  apply field_analysis_closest in Hfa.
  2:{ rewrite Hthreats. destruct n; [lia | discriminate]. }
  destruct Hfa as (j & _ & _ & _ & Hvar).
  rewrite Hthreats, repeat_length in Hvar.
  assert (Hlt : (1 <? n)%nat = true) by (apply Nat.ltb_lt; lia).
  rewrite Hlt in Hvar.
  destruct (np_var_repeat c n) as (v & Hv & Hv0); [lia|].
  rewrite Hv in Hvar. injection Hvar as Hveq. rewrite Hveq in Hv0.
  destruct (cohesion_of_variance (field_variance l) Hfv) as [Hsat _].
  assert (H1 : cohesion_index l == 1) by (rewrite Hco; apply Hsat; lra).
  exists l. split; [exact Hl|]. split; [exact Hv0|]. split; [exact H1|].
  rewrite Hwa, Hwc, Hwb, H1. repeat split; reflexivity.
Qed.

(** Threats never move the inertial or the chaos component: two warm states
    with the same history and last position agree on velocity, acceleration,
    the centre of A and the centre and spread of C, whatever their threat
    fields. *)
Theorem threats_leave_inertial_component (self1 self2 : State Q K) :
  state_buffer self1 = state_buffer self2 ->
  last_pos self1 = last_pos self2 ->
  (5 <= List.length (state_buffer self1))%nat ->
  exists l1 l2,
    internals self1 = Some l1
    /\ internals self2 = Some l2
    /\ velocity l1 = velocity l2
    /\ acceleration l1 = acceleration l2
    /\ loc_a l1 = loc_a l2
    /\ loc_c l1 = loc_c l2
    /\ scale_c l1 = scale_c l2.
Proof.
  intros Hbuf Hlp Hlen.
  destruct (internals_defined self1 Hlen) as [l1 Hl1].
  destruct (internals_defined self2) as [l2 Hl2]; [now rewrite <- Hbuf|].
  destruct (internals_motion self1 l1 Hl1) as (g1 & gg1 & Hg1 & Hgg1 & Hv1 & Ha1).
  destruct (internals_motion self2 l2 Hl2) as (g2 & gg2 & Hg2 & Hgg2 & Hv2 & Ha2).
  destruct (internals_inv self1 l1 Hl1) as (_ & _ & _ & Hla1 & Him1 & _ & _ & Hlc1 & Hsc1).
  destruct (internals_inv self2 l2 Hl2) as (_ & _ & _ & Hla2 & Him2 & _ & _ & Hlc2 & Hsc2).
  rewrite Hbuf, Hg2 in Hg1. injection Hg1 as <-.
  rewrite Hgg2 in Hgg1. injection Hgg1 as <-.
  assert (Hv : velocity l1 = velocity l2) by congruence.
  assert (Ha : acceleration l1 = acceleration l2) by congruence.
  exists l1, l2. repeat split; try assumption; congruence.
Qed.

End ExactWeights.

(** ** Binary64 *)

Section Binary64.
Context {K : Type} `{Key K}.

Lemma np_gradient_defined_binary64 (f : list float) :
  2 <= List.length f ->
  exists g, np_gradient f = Some g /\ List.length g = List.length f.
Proof.
  intros Hlen. unfold np_gradient.
  apply Nat.ltb_ge in Hlen. rewrite Hlen.
  destruct (omap_total
              (fun i =>
                 if (i =? 0)%nat then Some (nth 1 f (lit 0) - nth 0 f (lit 0))%num
                 else if (i =? List.length f - 1)%nat
                      then Some (nth (List.length f - 1) f (lit 0)
                                 - nth (List.length f - 2) f (lit 0))%num
                      else ndiv (nth (i + 1) f (lit 0) - nth (i - 1) f (lit 0))%num (lit 2))
              (seq 0 (List.length f))) as [g [Hg Hl]].
  - intros i _.
    destruct (i =? 0)%nat; [eauto|].
    destruct (i =? List.length f - 1)%nat; eexists; reflexivity.
  - exists g. split; [exact Hg|]. now rewrite Hl, length_seq.
Qed.

Lemma field_analysis_defined_binary64 (lastp : float) (threats : list float) :
  exists r, field_analysis lastp threats = Some r.
Proof.
  unfold field_analysis.
  destruct threats as [| t ts]; [eexists; reflexivity|].
  remember (t :: ts) as threats eqn:Ht.
  replace (0 <? List.length threats)%nat with true by (subst; reflexivity).
  assert (Hv : exists v, (if (1 <? List.length threats)%nat
                          then np_var threats else Some (lit 1.0)) = Some v).
  { destruct (1 <? List.length threats)%nat; eexists; reflexivity. }
  destruct Hv as [v Hv]. rewrite Hv. cbn [obind].
  subst threats. cbn [map np_argmin obind]. eexists; reflexivity.
Qed.

Lemma internals_defined_binary64 (self : State float K) :
  5 <= List.length (state_buffer self) ->
  exists l, internals self = Some l.
Proof.
  intros Hlen. unfold internals.
  destruct (np_gradient_defined_binary64 (state_buffer self)) as [g [Hg Hgl]]; [lia|].
  rewrite Hg. cbn [obind].
  destruct (np_gradient_defined_binary64 g) as [gg [Hgg _]]; [lia|].
  rewrite Hgg. cbn [obind].
  destruct (field_analysis_defined_binary64 (last_pos self)
              (map snd (field_vectors self))) as [[[fv closest] rdir] Hfa].
  rewrite Hfa. cbn [obind].
  destruct closest; cbv beta iota zeta; cbn [obind ndiv Number_float];
    destruct (assign_weights _) as [cl [[wa wb] wc]]; eauto.
Qed.

(** In binary64 as well [predict] returns a record in every state, also
    when positions are infinite or NaN, and the record has one of the two
    shapes the code builds. *)
Theorem predict_returns_binary64 (self : State float K) :
  exists d, prediction self = Some d /\ record_shape d = true.
Proof.
  destruct (Nat.lt_ge_cases (List.length (state_buffer self)) 5) as [Hlt | Hge].
  - exists (warmup_record (last_pos self)).
    split; [apply prediction_warmup, Hlt | reflexivity].
  - destruct (internals_defined_binary64 self Hge) as [l Hl].
    exists (mixture_record l).
    split; [rewrite prediction_warm, Hl by exact Hge | ]; reflexivity.
Qed.

(** In binary64, every warm prediction without threats has the same weights
    and spread of A, whatever the signal positions are (infinite or NaN
    included): the clamp is not taken, weight A is about 0.8708, weight B
    about 0.0792, weight C the float 0.05, the spread of A the float 1.2, and
    the three weights add up, left to right, to exactly 1. *)
Theorem no_threat_weights_binary64 (self : State float K) :
  5 <= List.length (state_buffer self) ->
  field_vectors self = [] ->
  exists l,
    internals self = Some l
    /\ clamped l = false
    /\ w_a l = 0x1.bdd8759ba0b26p-1%float
    /\ w_b l = 0x1.446f86562d9fcp-4%float
    /\ w_c l = 0x1.999999999999ap-5%float
    /\ scale_a l = 0x1.3333333333333p+0%float
    /\ scale_b l = scale_a l
    /\ PrimFloat.add (PrimFloat.add (w_a l) (w_b l)) (w_c l) = 1%float.
Proof.
  intros Hlen Hempty.
  destruct (internals_defined_binary64 self Hlen) as [l Hl].
  destruct (internals_inv self l Hl)
    as (Hfa & (c & Hc & Hco) & Hw & _ & _ & Hsa & Hb & _).
  rewrite Hempty in Hfa. cbn [map] in Hfa.
  rewrite field_analysis_empty in Hfa. injection Hfa as Hfv Hcl _.
  rewrite <- Hcl in Hb. injection Hb as _ Hsb.
  rewrite <- Hfv in Hc, Hsa.
  cbn [ndiv Number_float] in Hc. injection Hc as <-.
  assert (Ew : assign_weights (cohesion_index l)
               = (false, (0x1.bdd8759ba0b26p-1%float,
                          0x1.446f86562d9fcp-4%float,
                          0x1.999999999999ap-5%float)))
    by (rewrite Hco; vm_compute; reflexivity).
  assert (Es : scale_a l = 0x1.3333333333333p+0%float)
    by (rewrite Hsa; vm_compute; reflexivity).
  rewrite Ew in Hw. injection Hw as Hclamp Hwa Hwb Hwc.
  exists l. rewrite Hsb, Es, <- Hclamp, <- Hwa, <- Hwb, <- Hwc.
  repeat split; try assumption.
Qed.

End Binary64.

(** ** The numbers of the returned record *)

Section RecordFacts.
Context {A : Type} `{Number A} {K : Type} `{Key K}.


Lemma field_analysis_single (lastp t : A) :
  field_analysis lastp [t] = Some (lit 1.0, Some t, np_sign (nsub lastp t)).
Proof.
  unfold field_analysis. cbn [List.length Nat.ltb Nat.leb obind map np_argmin].
  destruct (is_nan _); reflexivity.
Qed.


End RecordFacts.

Section SentinelsBinary64.
Context {K : Type} `{Key K}.







End SentinelsBinary64.

(** ** Weights, sentinels and finiteness, read from the returned record *)

Section RecordProperties.
Context {K : Type} `{Key K}.


(** C5 (no-threat sentinel).  With an empty threat field and five samples or
    more, the field variance is 10.0, component B of the returned mixture has
    exactly the centre and the spread of component A, and the cohesion index
    is 1/10.1, which lies in [0, 1]; in exact arithmetic and in binary64. *)
Theorem no_threat_sentinel :
  (forall self : State Q K,
     field_vectors self = [] ->
     5 <= List.length (state_buffer self) ->
     exists l d la sa,
       internals self = Some l
       /\ prediction self = Some d
       /\ field_variance l = 10.0%Q
       /\ closest_threat_loc l = None
       /\ loc_of 0 d = Some la /\ loc_of 1 d = Some la
       /\ scale_of 0 d = Some sa /\ scale_of 1 d = Some sa
       /\ (cohesion_index l == 1 / 10.1)%Q
       /\ (0 <= cohesion_index l <= 1)%Q)
  /\ (forall self : State float K,
        field_vectors self = [] ->
        5 <= List.length (state_buffer self) ->
        exists l d la sa,
          internals self = Some l
          /\ prediction self = Some d
          /\ field_variance l = lit 10.0
          /\ closest_threat_loc l = None
          /\ loc_of 0 d = Some la /\ loc_of 1 d = Some la
          /\ scale_of 0 d = Some sa /\ scale_of 1 d = Some sa
          /\ cohesion_index l = PrimFloat.div (lit 1.0) (lit 10.1)
          /\ nleb (lit 0) (cohesion_index l) = true
          /\ nleb (cohesion_index l) (lit 1) = true).
Proof.
  split.
  - intros self Hempty Hlen.
    destruct (warm_prediction self Hlen) as (l & Hl & Hp & _ & Hco & Hunit & _).
    destruct (internals_inv self l Hl) as (Hfa & _ & _ & _ & _ & _ & Hb & _).
    rewrite Hempty in Hfa. cbn [map] in Hfa.
    rewrite field_analysis_empty in Hfa. injection Hfa as Hfv Hcl _.
    rewrite <- Hcl in Hb. injection Hb as Hlb Hsb.
    exists l, (mixture_record l), (loc_a l), (scale_a l).
    split; [exact Hl|]. split; [exact Hp|].
    split; [symmetry; exact Hfv|]. split; [symmetry; exact Hcl|].
    split; [reflexivity|]. split; [cbn; now rewrite Hlb|].
    split; [reflexivity|]. split; [cbn; now rewrite Hsb|].
    split; [|exact Hunit].
    rewrite Hco, <- Hfv. vm_compute. reflexivity.
  - intros self Hempty Hlen.
    destruct (internals_defined_binary64 self Hlen) as [l Hl].
    destruct (internals_inv self l Hl)
      as (Hfa & (c & Hc & Hco) & _ & _ & _ & _ & Hb & _).
    rewrite Hempty in Hfa. cbn [map] in Hfa.
    rewrite field_analysis_empty in Hfa. injection Hfa as Hfv Hcl _.
    rewrite <- Hcl in Hb. injection Hb as Hlb Hsb.
    rewrite <- Hfv in Hc. cbn [ndiv Number_float] in Hc. injection Hc as <-.
    exists l, (mixture_record l), (loc_a l), (scale_a l).
    split; [exact Hl|].
    split; [rewrite prediction_warm, Hl by exact Hlen; reflexivity|].
    split; [symmetry; exact Hfv|]. split; [symmetry; exact Hcl|].
    split; [reflexivity|]. split; [cbn; now rewrite Hlb|].
    split; [reflexivity|]. split; [cbn; now rewrite Hsb|].
    rewrite Hco. repeat split; vm_compute; reflexivity.
Qed.



(** With exactly one threat, at [t], in binary64: the field variance is the
    sentinel 1.0, the closest threat is [t], the cohesion index is 1/1.1, the
    clamp is not taken, the spread of A is the float sum 0.2 + 0.1, which is
    0.30000000000000004, the spread of B is 0.15, and the weights add up,
    left to right, to exactly 1. *)
Theorem single_threat_binary64 (self : State float K) (k : K) (t : float) :
  5 <= List.length (state_buffer self) ->
  field_vectors self = [(k, t)] ->
  exists l,
    internals self = Some l
    /\ field_variance l = lit 1.0
    /\ closest_threat_loc l = Some t
    /\ cohesion_index l = PrimFloat.div (lit 1.0) (lit 1.1)
    /\ clamped l = false
    /\ w_a l = 0x1.c8253c8253c82p-3%float
    /\ w_b l = 0x1.745d1745d1746p-1%float
    /\ w_c l = 0x1.999999999999ap-5%float
    /\ scale_a l = 0x1.3333333333334p-2%float
    /\ nltb (lit 0.3) (scale_a l) = true
    /\ scale_b l = lit 0.15
    /\ PrimFloat.add (PrimFloat.add (w_a l) (w_b l)) (w_c l) = 1%float.
Proof.
  intros Hlen Hfvs.
  destruct (internals_defined_binary64 self Hlen) as [l Hl].
  destruct (internals_inv self l Hl)
    as (Hfa & (c & Hc & Hco) & Hw & _ & _ & Hsa & Hb & _).
  rewrite Hfvs in Hfa. cbn [map snd] in Hfa.
  rewrite field_analysis_single in Hfa. injection Hfa as Hfv Hcl _.
  rewrite <- Hcl in Hb. injection Hb as _ Hsb.
  rewrite <- Hfv in Hc, Hsa.
  cbn [ndiv Number_float] in Hc. injection Hc as <-.
  assert (Ew : assign_weights (cohesion_index l)
               = (false, (0x1.c8253c8253c82p-3%float,
                          0x1.745d1745d1746p-1%float,
                          0x1.999999999999ap-5%float)))
    by (rewrite Hco; vm_compute; reflexivity).
  assert (Es : scale_a l = 0x1.3333333333334p-2%float)
    by (rewrite Hsa; vm_compute; reflexivity).
  rewrite Ew in Hw. injection Hw as Hclamp Hwa Hwb Hwc.
  exists l. rewrite Hsb, Es, Hco, <- Hclamp, <- Hwa, <- Hwb, <- Hwc.
  repeat split; try assumption; try (symmetry; assumption);
    vm_compute; reflexivity.
Qed.

End RecordProperties.

Section ExactSpreads.
Context {K : Type} `{Key K}.
Local Open Scope Q_scope.

(** Every component of the mixture returned by a warm prediction has a
    positive spread, in exact arithmetic: A has 0.2 plus a tenth of the field
    variance, so at least 0.2; B at least 0.15; C exactly 4.0, and C is
    centred at [last_pos]. *)
Theorem component_spreads (self : State Q K) :
  (5 <= List.length (state_buffer self))%nat ->
  exists l d sa sb sc lc,
    internals self = Some l
    /\ prediction self = Some d
    /\ scale_of 0 d = Some sa
    /\ scale_of 1 d = Some sb
    /\ scale_of 2 d = Some sc
    /\ loc_of 2 d = Some lc
    /\ sa == 0.2 + 0.1 * field_variance l
    /\ 0.2 <= sa
    /\ 0.15 <= sb
    /\ sc = 4.0
    /\ lc = last_pos self.
Proof.
  intros Hlen.
  destruct (warm_prediction self Hlen) as (l & Hl & Hp & Hfv & _).
  destruct (internals_inv self l Hl) as (_ & _ & _ & _ & _ & Hsa & Hb & Hlc & Hsc).
  exact_arith.
  assert (Ha : 0.2 <= scale_a l) by (rewrite Hsa; lra).
  exists l, (mixture_record l), (scale_a l), (scale_b l), (scale_c l), (loc_c l).
  split; [exact Hl|]. split; [exact Hp|].
  do 4 (split; [reflexivity|]).
  split; [rewrite Hsa; reflexivity|]. split; [exact Ha|].
  split; [|split; assumption].
  destruct (closest_threat_loc l); injection Hb as _ ->; lra.
Qed.

End ExactSpreads.

(** ** The further properties at concrete states *)

Section MoreRuns.
Local Open Scope Q_scope.

Lemma tick_absent_fields_witness :
  tick {| dove_location := None; falcon_location := None; falcon_id := Some "t1"%string |}
       [] (ingest cold_run init)
  = (Some tt, ingest cold_run init).
Proof.
  apply tick_absent_fields; [reflexivity | left; reflexivity].
Defined.

Lemma ingest_ignores_metrics_witness :
  ingest [(fst (signal_obs 3), [("latency"%string, PNum 7)])] init
  = ingest [signal_obs 3] (init : State Q string).
Proof.
  apply ingest_ignores_metrics. reflexivity.
Defined.

Lemma tick_keeps_other_threats_witness :
  entries "t1"%string
    (field_vectors (after_tick (fst (threat_obs "t2" 9)) [] (ingest cold_run init)))
  = [("t1"%string, 7)].
Proof.
  rewrite tick_keeps_other_threats; [reflexivity | discriminate].
Defined.

Lemma tick_threat_key_order_witness :
  map fst (field_vectors
             (after_tick (fst (threat_obs "t2" 9)) [] (ingest cold_run init)))
  = ["t1"; "t2"]%string
  /\ map fst (field_vectors
                (after_tick (fst (threat_obs "t1" 9)) [] (ingest cold_run init)))
     = ["t1"]%string.
Proof.
  split.
  - apply (tick_threat_key_order (fst (threat_obs "t2" 9)) [] (ingest cold_run init)
             "t2"%string 9 eq_refl eq_refl).
    vm_compute. intros [E | []]. discriminate E.
  - apply (tick_threat_key_order (fst (threat_obs "t1" 9)) [] (ingest cold_run init)
             "t1"%string 9 eq_refl eq_refl).
    left. reflexivity.
Defined.

Lemma threats_never_removed_witness :
  In "a"%string (map fst (field_vectors (ingest swarm_run init)))
  /\ In "a"%string
       (map fst (field_vectors (ingest long_run (ingest swarm_run init)))).
Proof.
  assert (Hin : In "a"%string (map fst (field_vectors (ingest swarm_run init))))
    by (left; reflexivity).
  split; [exact Hin|].
  apply (threats_never_removed long_run (ingest swarm_run init) "a"%string Hin).
Defined.

Lemma predict_after_cold_tick_witness :
  (List.length (state_buffer (ingest cold_run init)) < 4)%nat
  /\ prediction (after_tick (fst (signal_obs 8)) [] (ingest cold_run init))
     = Some (warmup_record 8).
Proof.
  assert (Hlt : (List.length (state_buffer (ingest cold_run init)) < 4)%nat)
    by (vm_compute; lia).
  split; [exact Hlt|].
  apply (predict_after_cold_tick (fst (signal_obs 8)) [] (ingest cold_run init) 8
           Hlt eq_refl).
Defined.

Lemma inertial_forecast_closed_form_witness :
  state_buffer (ingest linear_run init) = [0; 1] ++ [2; 3; 4]
  /\ exists l,
       internals (ingest linear_run init) = Some l
       /\ velocity l = 4 - 3
       /\ acceleration l = (4 - 3) - (4 - 2) / 2.
Proof.
  assert (Hbuf : state_buffer (ingest linear_run init) = [0; 1] ++ [2; 3; 4])
    by reflexivity.
  assert (Hpre : (2 <= List.length [0; 1])%nat) by (cbn; lia).
  split; [exact Hbuf|].
  destruct (inertial_forecast_closed_form (ingest linear_run init) [0; 1] 2 3 4
              Hbuf Hpre) as (l & Hl & Hv & Ha & _).
  exists l. repeat split; assumption.
Defined.

Lemma constant_velocity_extrapolated_witness :
  state_buffer (ingest linear_run init) = [0; 1] ++ [2; 3; 4]
  /\ exists l,
       internals (ingest linear_run init) = Some l
       /\ loc_a l == last_pos (ingest linear_run init) + 1.
Proof.
  assert (Hbuf : state_buffer (ingest linear_run init) = [0; 1] ++ [2; 3; 4])
    by reflexivity.
  assert (Hpre : (2 <= List.length [0; 1])%nat) by (cbn; lia).
  assert (H12 : 4 - 3 == 1) by reflexivity.
  assert (H23 : 3 - 2 == 1) by reflexivity.
  split; [exact Hbuf|].
  destruct (constant_velocity_extrapolated (ingest linear_run init) [0; 1] 2 3 4 1
              Hbuf Hpre H12 H23) as (l & Hl & _ & _ & Hla).
  exists l. split; assumption.
Defined.

Lemma closest_threat_is_nearest_witness :
  (5 <= List.length (state_buffer (ingest flank_run init)))%nat
  /\ field_vectors (ingest flank_run init) <> []
  /\ exists l j,
       internals (ingest flank_run init) = Some l
       /\ closest_threat_loc l = Some (nth j (threats_of (ingest flank_run init)) 0).
Proof.
  assert (Hge : (5 <= List.length (state_buffer (ingest flank_run init)))%nat)
    by (vm_compute; lia).
  assert (Hne : field_vectors (ingest flank_run init) <> [])
    by (vm_compute; discriminate).
  split; [exact Hge|]. split; [exact Hne|].
  destruct (closest_threat_is_nearest (ingest flank_run init) Hge Hne)
    as (l & j & Hl & _ & Hcl & _).
  exists l, j. split; assumption.
Defined.

Lemma evasion_direction_witness :
  (5 <= List.length (state_buffer (ingest one_threat_run init)))%nat
  /\ field_vectors (ingest one_threat_run init) <> []
  /\ exists l t,
       internals (ingest one_threat_run init) = Some l
       /\ closest_threat_loc l = Some t
       /\ (t == last_pos (ingest one_threat_run init) ->
           loc_b l == last_pos (ingest one_threat_run init)).
Proof.
  assert (Hge : (5 <= List.length (state_buffer (ingest one_threat_run init)))%nat)
    by (vm_compute; lia).
  assert (Hne : field_vectors (ingest one_threat_run init) <> [])
    by (vm_compute; discriminate).
  split; [exact Hge|]. split; [exact Hne|].
  destruct (evasion_direction (ingest one_threat_run init) Hge Hne)
    as (l & t & Hl & Hcl & _ & _ & _ & _ & Hz).
  exists l, t. repeat split; assumption.
Defined.

Lemma cohesion_saturation_witness :
  (5 <= List.length (state_buffer (ingest linear_run init)))%nat
  /\ exists l,
       internals (ingest linear_run init) = Some l
       /\ (0.9 <= field_variance l ->
           cohesion_index l == 1 / (field_variance l + 0.1)
           /\ w_b l == 0.8 / (field_variance l + 0.1)).
Proof.
  assert (Hge : (5 <= List.length (state_buffer (ingest linear_run init)))%nat)
    by (vm_compute; lia).
  split; [exact Hge|].
  destruct (cohesion_saturation (ingest linear_run init) Hge) as (l & Hl & _ & Hq).
  exists l. split; assumption.
Defined.

Lemma single_threat_sentinel_witness :
  field_vectors (ingest one_threat_run init) = [("t1"%string, 4)]
  /\ exists l,
       internals (ingest one_threat_run init) = Some l
       /\ field_variance l = 1.0
       /\ closest_threat_loc l = Some 4.
Proof.
  assert (Hge : (5 <= List.length (state_buffer (ingest one_threat_run init)))%nat)
    by (vm_compute; lia).
  assert (Hfv : field_vectors (ingest one_threat_run init) = [("t1"%string, 4)])
    by reflexivity.
  split; [exact Hfv|].
  destruct (single_threat_sentinel (ingest one_threat_run init) "t1"%string 4 Hge Hfv)
    as (l & Hl & Hv & Hcl & _).
  exists l. repeat split; assumption.
Defined.

Lemma coincident_threats_saturate_witness :
  threats_of (ingest swarm_run init) = repeat 3 2
  /\ exists l,
       internals (ingest swarm_run init) = Some l
       /\ w_a l == 0.15 /\ w_b l == 0.8.
Proof.
  assert (Hge : (5 <= List.length (state_buffer (ingest swarm_run init)))%nat)
    by (vm_compute; lia).
  assert (Hn : (2 <= 2)%nat) by lia.
  assert (Hth : threats_of (ingest swarm_run init) = repeat 3 2) by reflexivity.
  split; [exact Hth|].
  destruct (coincident_threats_saturate (ingest swarm_run init) 3 2 Hge Hn Hth)
    as (l & Hl & _ & _ & Hwa & Hwb & _).
  exists l. repeat split; assumption.
Defined.

Lemma threats_leave_inertial_component_witness :
  exists l1 l2,
    internals (ingest linear_run init) = Some l1
    /\ internals (ingest swarm_run init) = Some l2
    /\ loc_a l1 = loc_a l2.
Proof.
  assert (Hbuf : state_buffer (ingest linear_run init)
                 = state_buffer (ingest swarm_run init)) by reflexivity.
  assert (Hlp : last_pos (ingest linear_run init) = last_pos (ingest swarm_run init))
    by reflexivity.
  assert (Hge : (5 <= List.length (state_buffer (ingest linear_run init)))%nat)
    by (vm_compute; lia).
  destruct (threats_leave_inertial_component (ingest linear_run init)
              (ingest swarm_run init) Hbuf Hlp Hge)
    as (l1 & l2 & H1 & H2 & _ & _ & Hla & _).
  exists l1, l2. repeat split; assumption.
Defined.

Lemma no_threat_weights_binary64_witness :
  field_vectors (ingest overflow_run init) = []
  /\ exists l,
       internals (ingest overflow_run init) = Some l
       /\ clamped l = false
       /\ PrimFloat.add (PrimFloat.add (w_a l) (w_b l)) (w_c l) = 1%float.
Proof.
  assert (Hge : (5 <= List.length (state_buffer (ingest overflow_run init)))%nat)
    by (vm_compute; lia).
  assert (Hfv : field_vectors (ingest overflow_run init) = []) by reflexivity.
  split; [exact Hfv|].
  destruct (no_threat_weights_binary64 (ingest overflow_run init) Hge Hfv)
    as (l & Hl & Hcl & _ & _ & _ & _ & _ & Hsum).
  exists l. repeat split; assumption.
Defined.

(** C3 (end-to-end example).  A fresh estimator that ingests the positions
    0, 1, 2, 3, 4 and no threat returns a mixture in which component A is
    centred at 5 (unit velocity, zero acceleration), component B has the
    centre and spread of component A, weight B is cohesion * 0.8 with field
    variance 10.0 and cohesion 1/10.1, weight C is 0.05 and weight A is
    1 - weight B - weight C, about 0.871; in exact arithmetic and in
    binary64. *)
Theorem end_to_end_example :
  (exists l d la sa wa wb wc,
     internals (ingest linear_run init) = Some l
     /\ prediction (ingest linear_run init) = Some d
     /\ velocity l == 1 /\ acceleration l == 0
     /\ field_variance l = 10.0
     /\ cohesion_index l == 1 / 10.1
     /\ Qabs (cohesion_index l - 0.099) < 0.001
     /\ loc_of 0 d = Some la /\ la == 5
     /\ scale_of 0 d = Some sa
     /\ loc_of 1 d = Some la /\ scale_of 1 d = Some sa
     /\ weight_of 0 d = Some wa /\ weight_of 1 d = Some wb
     /\ weight_of 2 d = Some wc
     /\ wb == cohesion_index l * 0.8
     /\ wc = 0.05
     /\ wa == 1 - wb - wc
     /\ Qabs (wa - 0.871) < 0.001)
  /\ (exists l d la sa wa wb wc,
        internals (ingest linear_run64 init) = Some l
        /\ prediction (ingest linear_run64 init) = Some d
        /\ velocity l = 1%float /\ acceleration l = 0%float
        /\ field_variance l = lit 10.0
        /\ cohesion_index l = PrimFloat.div (lit 1.0) (lit 10.1)
        /\ loc_of 0 d = Some la /\ la = 5%float
        /\ scale_of 0 d = Some sa
        /\ loc_of 1 d = Some la /\ scale_of 1 d = Some sa
        /\ weight_of 0 d = Some wa /\ weight_of 1 d = Some wb
        /\ weight_of 2 d = Some wc
        /\ wb = PrimFloat.mul (cohesion_index l) (lit 0.8)
        /\ wc = lit 0.05
        /\ wa = PrimFloat.sub (PrimFloat.sub (lit 1.0) wb) wc
        /\ nltb (nabs (nsub wa (lit 0.871))) (lit 0.001) = true).
Proof.
  split.
  - do 7 eexists. split; [vm_compute; reflexivity|].
    split; [vm_compute; reflexivity|].
    repeat split; vm_compute; reflexivity.
  - do 7 eexists. split; [vm_compute; reflexivity|].
    split; [vm_compute; reflexivity|].
    repeat split; vm_compute; reflexivity.
Qed.



Lemma no_threat_sentinel_witness :
  field_vectors (ingest linear_run init) = []
  /\ (5 <= List.length (state_buffer (ingest linear_run init)))%nat
  /\ exists d la sa,
       prediction (ingest linear_run init) = Some d
       /\ loc_of 0 d = Some la /\ loc_of 1 d = Some la
       /\ scale_of 0 d = Some sa /\ scale_of 1 d = Some sa.
Proof.
  assert (Hempty : field_vectors (ingest linear_run init) = []) by reflexivity.
  assert (Hge : (5 <= List.length (state_buffer (ingest linear_run init)))%nat)
    by (vm_compute; lia).
  split; [exact Hempty|]. split; [exact Hge|].
  destruct (proj1 no_threat_sentinel (ingest linear_run init) Hempty Hge)
    as (l & d & la & sa & _ & Hp & _ & _ & Ha & Hb & Hsa & Hsb & _).
  exists d, la, sa. repeat split; assumption.
Defined.



Lemma component_spreads_witness :
  (5 <= List.length (state_buffer (ingest flank_run init)))%nat
  /\ exists d sa sb,
       prediction (ingest flank_run init) = Some d
       /\ scale_of 0 d = Some sa
       /\ scale_of 1 d = Some sb
       /\ 0.2 <= sa
       /\ 0.15 <= sb.
Proof.
  assert (Hge : (5 <= List.length (state_buffer (ingest flank_run init)))%nat)
    by (vm_compute; lia).
  split; [exact Hge|].
  destruct (component_spreads (ingest flank_run init) Hge)
    as (l & d & sa & sb & sc & lc & _ & Hp & Ha & Hb & _ & _ & _ & Hsa & Hsb & _).
  exists d, sa, sb. repeat split; assumption.
Defined.

Lemma single_threat_binary64_witness :
  field_vectors (ingest one_threat_run64 init) = [("t1"%string, 4%float)]
  /\ exists l,
       internals (ingest one_threat_run64 init) = Some l
       /\ field_variance l = lit 1.0
       /\ scale_a l = 0x1.3333333333334p-2%float.
Proof.
  assert (Hge :
            (5 <= List.length (state_buffer (ingest one_threat_run64 init)))%nat)
    by (vm_compute; lia).
  assert (Hfv : field_vectors (ingest one_threat_run64 init)
                = [("t1"%string, 4%float)]) by reflexivity.
  split; [exact Hfv|].
  destruct (single_threat_binary64 (ingest one_threat_run64 init)
              "t1"%string 4%float Hge Hfv)
    as (l & Hl & Hv & _ & _ & _ & _ & _ & _ & Hs & _).
  exists l. repeat split; assumption.
Defined.

End MoreRuns.
